(** * looter: the mirror registry, its durable store and its scheduler

    A shallow embedding of [main.go].  Go values are modelled as follows:
    - [int], [int64] and [time.Duration] as [Z] (the range of [int64] is
      checked where the decoder checks it);
    - [string] and [[]byte] as [string];
    - [error] as [option string]: [None] is [nil], [Some msg] carries the
      text of [err.Error()];
    - [time.Time] as the instant it denotes, in nanoseconds ([Z]);
    - [map[string]Mirror] as [option (gmap string Mirror)], [None] being the
      nil map;
    - the file system as a finite map from paths to file contents, a
      content being the JSON document the file holds, if it holds one.

    What the environment decides (the errors of system calls and of git,
    the order in which a range visits a map, the time that passes, which
    sender gets through) is an argument of the function it bears on.  The
    clock never goes back.  Strings are taken as valid UTF-8 text, a loop
    variable is one variable for each iteration, and what [log] and [fmt]
    print is left out. *)

From Stdlib Require Import ZArith Lia Ascii String DecimalString DecimalZ.
From stdpp Require Import base option list gmap strings sorting.

#[local] Set Warnings "-register-all".

Local Open Scope string_scope.
Local Open Scope Z_scope.

(** ** Mirror states *)

Definition MirrorState := Z.

Definition MirrorFresh : MirrorState := 0 + 1.
Definition MirrorReady : MirrorState := 1 + 1.

Definition error := option string.

Definition MirrorState_String (ms : MirrorState) : string :=
  if decide (ms = MirrorFresh) then "Fresh"
  else if decide (ms = MirrorReady) then "Ready"
  else "Unknown".

Definition ParseMirrorState (str : string) : MirrorState * error :=
  if decide (str = "Fresh") then (MirrorFresh, None)
  else if decide (str = "Ready") then (MirrorReady, None)
  else (0, Some ("invalid MirrorState: " +:+ str)).

Definition MirrorState_MarshalText (ms : MirrorState) : string * error :=
  (MirrorState_String ms, None).

(** The receiver is a pointer: the function returns the value the receiver
    holds afterwards together with the error. *)
Definition MirrorState_UnmarshalText (ms : MirrorState) (bs : string)
  : MirrorState * error :=
  match ParseMirrorState bs with
  | (_, Some err) => (ms, Some err)
  | (val, None) => (val, None)
  end.

(** ** Time *)

Definition Time := Z.
Definition Duration := Z.

Definition Nanosecond : Duration := 1.
Definition Microsecond : Duration := 1000 * Nanosecond.
Definition Millisecond : Duration := 1000 * Microsecond.
Definition Second : Duration := 1000 * Millisecond.
Definition Minute : Duration := 60 * Second.

Definition Time_Add (t : Time) (d : Duration) : Time := t + d.

(** [time.Until(t)] read at instant [now]. *)
Definition time_Until (now t : Time) : Duration := t - now.

Definition in_int64 (n : Z) : bool :=
  (- 2 ^ 63 <=? n) && (n <? 2 ^ 63).

(** ** The data model *)

Record Mirror := {
  Mirror_Url : string;
  Mirror_LastUpdate : Time;
  Mirror_State : MirrorState
}.

Record State := {
  State_StoragePath : string;
  State_UpdateDelta : Duration;
  State_Mirrors : option (gmap string Mirror)
}.

(** The zero value of [Mirror], what a lookup of an absent key yields. *)
Definition zeroMirror : Mirror :=
  {| Mirror_Url := ""; Mirror_LastUpdate := 0; Mirror_State := 0 |}.

Definition NewState : State :=
  {| State_StoragePath := "";
     State_UpdateDelta := 5 * Minute;
     State_Mirrors := Some ∅ |}.

(** [m[k]] and [_, ok := m[k]] on a possibly nil map. *)
Definition map_index (mm : option (gmap string Mirror)) (k : string) : Mirror :=
  default zeroMirror (default ∅ mm !! k).

Definition map_has (mm : option (gmap string Mirror)) (k : string) : bool :=
  bool_decide (is_Some (default ∅ mm !! k)).

(** ** JSON documents

    [encoding/json] is modelled on the document tree; the text of a number
    that is not an integer literal is kept as it is. *)

Inductive json :=
| JNull
| JBool (b : bool)
| JInt (n : Z)
| JFrac (lit : string)
| JString (s : string)
| JArray (items : list json)
| JObject (fields : list (string * json)).

(** The decoder matches an object key with a struct field without regard to
    the case of its letters. *)
Definition upper (c : ascii) : ascii :=
  let n := nat_of_ascii c in
  if ((97 <=? n) && (n <=? 122))%nat then ascii_of_nat (n - 32) else c.

Fixpoint foldName (s : string) : string :=
  match s with
  | EmptyString => EmptyString
  | String c s => String (upper c) (foldName s)
  end.

Definition is_field (tag key : string) : bool :=
  bool_decide (foldName key = foldName tag).

(** A left fold that stops at the first error. *)
Fixpoint foldM {A B} (f : A → B → option A) (a : A) (l : list B) : option A :=
  match l with
  | [] => Some a
  | b :: l => a' ← f a b; foldM f a' l
  end.

(** What a file holds: a complete JSON document, or none (an empty file or
    one whose text breaks off). *)
Abbreviation content := (option json).
Abbreviation FS := (gmap string (option json)).

(** ** Paths *)

Definition slash : ascii := "/"%char.
Definition nl : string := String (ascii_of_nat 10) "".

(** The text before the last [/] of [s], when there is one. *)
Fixpoint before_last_slash (s : string) : option string :=
  match s with
  | EmptyString => None
  | String c s' =>
    match before_last_slash s' with
    | Some d => Some (String c d)
    | None => if decide (c = slash) then Some "" else None
    end
  end.

(** [filepath.Dir] on slash-separated paths without empty, [.] or [..]
    elements, the ones [fs.ValidPath] admits. *)
Definition filepath_Dir (path : string) : string :=
  match before_last_slash path with
  | Some "" => "/"
  | Some d => d
  | None => "."
  end.

(** [filepath.Join] of two elements, without the cleaning of the result. *)
Definition filepath_Join (a b : string) : string :=
  if decide (a = "") then b
  else if decide (b = "") then a
  else a +:+ "/" +:+ b.

Fixpoint split_slash (cur : string) (s : string) : list string :=
  match s with
  | EmptyString => [cur]
  | String c s' =>
    if decide (c = slash) then cur :: split_slash "" s'
    else split_slash (cur +:+ String c "") s'
  end.

Definition valid_elem (e : string) : bool :=
  negb (bool_decide (e = "") || bool_decide (e = ".") || bool_decide (e = "..")).

(** [fs.ValidPath], on strings that are valid UTF-8. *)
Definition fs_ValidPath (name : string) : bool :=
  bool_decide (name = ".") || forallb valid_elem (split_slash "" name).

Fixpoint ends_with_slash (s : string) : bool :=
  match s with
  | EmptyString => false
  | String c EmptyString => bool_decide (c = slash)
  | String _ s' => ends_with_slash s'
  end.

Fixpoint no_slash (s : string) : bool :=
  match s with
  | EmptyString => true
  | String c s' => negb (bool_decide (c = slash)) && no_slash s'
  end.

(** [joinPath] of package [os], which [os.CreateTemp] uses. *)
Definition joinPath (dir name : string) : string :=
  if ends_with_slash dir then dir +:+ name else dir +:+ "/" +:+ name.

(** The name [os.CreateTemp(dir, "looter.*.tmp")] tries, for the random
    digits [rnd]. *)
Definition tempName (dir rnd : string) : string :=
  joinPath dir ("looter." +:+ rnd +:+ ".tmp").

(** ** Maps as the decoder fills them *)

Definition store_entry (m : gmap string Mirror) (kv : string * Mirror)
  : gmap string Mirror := <[kv.1 := kv.2]> m.

(** ** Results of calls that may panic *)

Inductive Result (A : Type) :=
| Return (a : A)
| Panic (msg : string).
Arguments Return {A} a.
Arguments Panic {A} msg.

Definition bindR {A B} (r : Result A) (k : A → Result B) : Result B :=
  match r with
  | Return a => k a
  | Panic msg => Panic msg
  end.

Notation "x ←ᵣ r ;; k" := (bindR r (λ x, k))
  (at level 100, r at next level, right associativity).

(** [m[k] = v]: a store into the nil map panics. *)
Definition map_store (mm : option (gmap string Mirror)) (k : string) (v : Mirror)
  : Result (option (gmap string Mirror)) :=
  match mm with
  | None => Panic "assignment to entry in nil map"
  | Some m => Return (Some (<[k := v]> m))
  end.

(** ** The world around the registry *)

Inductive Task := OwnerTask | HandlerTask.

(** What the program does to the outside and to its registry, in order. *)
Inductive Event :=
| EvRemoveAll (dir : string)
| EvGitClone (url dir : string)
| EvGitRemoteUpdate (dir : string)
| EvMapWrite (by_task : Task) (name : string) (mirror : Mirror)
| EvUpdateDb (by_task : Task)
| EvGo (name : string) (deadline : Time)
| EvRecv (by_task : Task) (name : string).

(** The channel is unbuffered; what is modelled of it is the goroutines
    that will send on it: each sleeps until its deadline and then sends its
    name once. *)
Record Mirrorer := {
  state : State;
  dbPath : string;
  messages : list (string * Time)
}.

Record World := {
  mirrorer : Mirrorer;
  files : FS;
  clock : Time;
  trace : list Event
}.

Definition set_mirrors (mm : option (gmap string Mirror)) (s : State) : State :=
  {| State_StoragePath := State_StoragePath s;
     State_UpdateDelta := State_UpdateDelta s;
     State_Mirrors := mm |}.

Definition with_state (s : State) (m : Mirrorer) : Mirrorer :=
  {| state := s; dbPath := dbPath m; messages := messages m |}.

Definition with_messages (ts : list (string * Time)) (m : Mirrorer) : Mirrorer :=
  {| state := state m; dbPath := dbPath m; messages := ts |}.

(** What the environment answers to the steps of one [updateDb]: the random
    digits of the temporary name, and the error of each system call. *)
Record SaveIO := {
  save_rnd : string;
  save_create : error;
  save_write : error;
  save_close : error;
  save_rename : error
}.

(** The error [cmd.Output()] returns: an [*exec.ExitError] with its captured
    standard error, or an error of another type (the program was not found,
    say). *)
Inductive CmdErr :=
| ExitError (text stderr : string)
| OtherError (text : string).

Record CloneEnv := {
  clone_removeAll : error;
  clone_output : option CmdErr
}.

(** One iteration of the catch-up pass. *)
Record CatchEnv := {
  catch_clone : CloneEnv;
  catch_elapsed : N;
  catch_save : SaveIO
}.

(** One iteration of the event loop: how long the receive blocks, which
    sender gets through, what the update answers and how long it takes. *)
Record LoopEnv := {
  loop_wait : N;
  loop_pick : nat;
  loop_output : option CmdErr;
  loop_elapsed : N;
  loop_save : SaveIO
}.

(** One add-mirror request. *)
Record HandlerEnv := {
  handler_elapsed : N;
  handler_save : SaveIO
}.

(** ** HTTP *)

Abbreviation Values := (gmap string (list string)).

Definition Values_Has (v : Values) (key : string) : bool :=
  bool_decide (is_Some (v !! key)).

Definition Values_Get (v : Values) (key : string) : string :=
  match v !! key with
  | Some (x :: _) => x
  | _ => ""
  end.

(** A response writer: the status written, if any, and the body. *)
Record Response := {
  status : option Z;
  body : string
}.

Definition newResponse : Response := {| status := None; body := "" |}.

Definition http_Error (w : Response) (msg : string) (code : Z) : Response :=
  {| status := Some (default code (status w));
     body := body w +:+ msg +:+ nl |}.

Fixpoint strings_Join (elems : list string) (sep : string) : string :=
  match elems with
  | [] => ""
  | [e] => e
  | e :: rest => e +:+ sep +:+ strings_Join rest sep
  end.

Definition checkArgs (w : Response) (values : Values) (args : list string)
  : Response * bool :=
  let missingArgs := filter (λ arg, Values_Has values arg = false) args in
  if (0 <? length missingArgs)%nat
  then (http_Error w ("missing arguments: " +:+ strings_Join missingArgs ", ") 500,
        false)
  else (w, true).

(** ** Timestamps written as decimal nanoseconds

    An instance of the time format below, for running the definitions. *)
Definition stamp_text (t : Time) : option string :=
  Some (NilEmpty.string_of_int (Z.to_int t)).

Definition stamp_parse (s : string) : option Time :=
  Z.of_int <$> NilEmpty.int_of_string s.

(** ** Sample worlds

    A registry with one mirror never cloned and one cloned, the environment
    of a save without errors, and a few requests and schedules. *)

Definition repo1 : Mirror :=
  {| Mirror_Url := "https://example.com/repo1.git";
     Mirror_LastUpdate := 0;
     Mirror_State := MirrorFresh |}.

Definition repo2 : Mirror :=
  {| Mirror_Url := "https://example.com/repo2.git";
     Mirror_LastUpdate := 100;
     Mirror_State := MirrorReady |}.

Definition sample_state : State :=
  {| State_StoragePath := "mirrors";
     State_UpdateDelta := 5 * Minute;
     State_Mirrors := Some (<["repo2" := repo2]> {["repo1" := repo1]}) |}.

Definition sample_files : FS := {["db.json" := Some JNull]}.

Definition sample_mirrorer : Mirrorer :=
  {| state := sample_state; dbPath := "db.json"; messages := [] |}.

Definition sample_world : World :=
  {| mirrorer := sample_mirrorer; files := sample_files; clock := 1000; trace := [] |}.

Definition quiet_save : SaveIO :=
  {| save_rnd := "42"; save_create := None; save_write := None;
     save_close := None; save_rename := None |}.

(** A snapshot file that sets the storage path only. *)
Definition bare_files : FS :=
  {["db.json" := Some (JObject [("storage_path", JString "mirrors")])]}.

(** A snapshot file whose [mirrors] field is null, and the world it
    starts. *)
Definition null_files : FS :=
  {["db.json" := Some (JObject [("mirrors", JNull)])]}.

Definition null_state : State :=
  {| State_StoragePath := ""; State_UpdateDelta := 5 * Minute; State_Mirrors := None |}.

Definition null_world : World :=
  {| mirrorer := {| state := null_state; dbPath := "db.json"; messages := [] |};
     files := null_files; clock := 1000; trace := [] |}.

(** [/api/add-mirror?name=repo3&url=https://example.com/repo3.git] and the
    same request for a name that is taken. *)
Definition add_repo3 : Values :=
  <["url" := ["https://example.com/repo3.git"]]> {["name" := ["repo3"]]}.

Definition add_repo1 : Values :=
  <["url" := ["https://example.com/other.git"]]> {["name" := ["repo1"]]}.

Definition quiet_request : HandlerEnv :=
  {| handler_elapsed := 1; handler_save := quiet_save |}.

(** A clone that exits with an error. *)
Definition failing_clone : CatchEnv :=
  {| catch_clone := {| clone_removeAll := None;
                       clone_output := Some (ExitError "exit status 128"
                                               "fatal: repository not found") |};
     catch_elapsed := 7;
     catch_save := quiet_save |}.

(** The only sender gets through at once; the update fails, or succeeds
    after five ticks. *)
Definition failing_update : LoopEnv :=
  {| loop_wait := 0; loop_pick := 0;
     loop_output := Some (ExitError "exit status 1" "fatal: unable to access");
     loop_elapsed := 5; loop_save := quiet_save |}.

Definition good_update (wait : N) : LoopEnv :=
  {| loop_wait := wait; loop_pick := 0; loop_output := None;
     loop_elapsed := 5; loop_save := quiet_save |}.

(** [repo2] is due: the clock is past its last update plus the interval. *)
Definition due_world : World :=
  {| mirrorer := sample_mirrorer; files := sample_files;
     clock := 100 + 5 * Minute + 1; trace := [] |}.

(** A snapshot with a negative interval and a last update ahead of the
    clock. *)
Definition backward_state : State :=
  {| State_StoragePath := "mirrors";
     State_UpdateDelta := -10;
     State_Mirrors := Some {["repo2" := repo2]} |}.

Definition backward_world : World :=
  {| mirrorer := {| state := backward_state; dbPath := "db.json"; messages := [] |};
     files := sample_files; clock := 0; trace := [] |}.

(** A save whose rename fails, and a request served with it. *)
Definition failing_save : SaveIO :=
  {| save_rnd := "42"; save_create := None; save_write := None;
     save_close := None; save_rename := Some "permission denied" |}.

Definition failing_request : HandlerEnv :=
  {| handler_elapsed := 1; handler_save := failing_save |}.

(** [/api/add-mirror?name=repo3], without a url. *)
Definition add_no_url : Values := {["name" := ["repo3"]]}.

(** The [git] program is not installed: the command fails to start. *)
Definition missing_git : CmdErr :=
  OtherError "exec: git: executable file not found in $PATH".

Definition clone_without_git : CatchEnv :=
  {| catch_clone := {| clone_removeAll := None; clone_output := Some missing_git |};
     catch_elapsed := 7;
     catch_save := quiet_save |}.

Definition update_without_git : LoopEnv :=
  {| loop_wait := 0; loop_pick := 0; loop_output := Some missing_git;
     loop_elapsed := 5; loop_save := quiet_save |}.

(** A clone that succeeds. *)
Definition good_clone : CatchEnv :=
  {| catch_clone := {| clone_removeAll := None; clone_output := None |};
     catch_elapsed := 7;
     catch_save := quiet_save |}.

(** A snapshot file with a mirror that has no [state] field, and the state
    it decodes to. *)
Definition stateless_files : FS :=
  {["db.json" :=
      Some (JObject [("mirrors",
                      JObject [("repo4",
                                JObject [("url", JString "https://example.com/repo4.git")])])])]}.

Definition stateless_state : State :=
  {| State_StoragePath := "";
     State_UpdateDelta := 5 * Minute;
     State_Mirrors := Some {["repo4" := {| Mirror_Url := "https://example.com/repo4.git";
                                           Mirror_LastUpdate := 0;
                                           Mirror_State := 0 |}]} |}.

(** The state [bare_files] decodes to. *)
Definition bare_state : State :=
  {| State_StoragePath := "mirrors";
     State_UpdateDelta := 5 * Minute;
     State_Mirrors := Some ∅ |}.

(** [/api/add-mirror?name=&url=https://example.com/repo5.git] *)
Definition add_empty_name : Values :=
  <["url" := ["https://example.com/repo5.git"]]> {["name" := [""]]}.

Section Looter.

(** [time.Time]'s [MarshalJSON] and [UnmarshalJSON], on the text between the
    quotes.  [MarshalJSON] fails on a year outside [0, 9999]. *)
Variable time_MarshalJSON : Time → option string.
Variable time_UnmarshalJSON : string → option Time.

#[local] Set Default Proof Using "Type".

(** ** Encoding the state *)

Definition encodeMirror (m : Mirror) : option json :=
  stamp ← time_MarshalJSON (Mirror_LastUpdate m);
  Some (JObject [("url", JString (Mirror_Url m));
                 ("last_update", JString stamp);
                 ("state", JString (MirrorState_MarshalText (Mirror_State m)).1)]).

Definition key_le : relation (string * Mirror) :=
  λ a b, Is_true (String.leb a.1 b.1).

(** A map is written with its keys in order. *)
Definition encodeMirrors (mm : option (gmap string Mirror)) : option json :=
  match mm with
  | None => Some JNull
  | Some m =>
    JObject <$> mapM (λ kv, j ← encodeMirror kv.2; Some (kv.1, j))
                     (merge_sort key_le (map_to_list m))
  end.

Definition encodeState (s : State) : option json :=
  mirrors ← encodeMirrors (State_Mirrors s);
  Some (JObject [("storage_path", JString (State_StoragePath s));
                 ("update_delta", JInt (State_UpdateDelta s));
                 ("mirrors", mirrors)]).

(** ** Decoding into a state

    Each decoder takes the value the destination holds and returns the value
    it holds afterwards, or [None] when [Decode] returns an error.  A JSON
    null leaves a string, a number, a struct and a timestamp as they are, and
    makes a map nil. *)

Definition decode_string (old : string) (j : json) : option string :=
  match j with
  | JNull => Some old
  | JString s => Some s
  | _ => None
  end.

Definition decode_int64 (old : Z) (j : json) : option Z :=
  match j with
  | JNull => Some old
  | JInt n => if in_int64 n then Some n else None
  | _ => None
  end.

Definition decode_Time (old : Time) (j : json) : option Time :=
  match j with
  | JNull => Some old
  | JString s => time_UnmarshalJSON s
  | _ => None
  end.

Definition decode_MirrorState (old : MirrorState) (j : json) : option MirrorState :=
  match j with
  | JNull => Some old
  | JString s =>
    match MirrorState_UnmarshalText old s with
    | (ms, None) => Some ms
    | (_, Some _) => None
    end
  | _ => None
  end.

Definition decode_Mirror_field (m : Mirror) (kv : string * json) : option Mirror :=
  if is_field "url" kv.1 then
    u ← decode_string (Mirror_Url m) kv.2;
    Some {| Mirror_Url := u; Mirror_LastUpdate := Mirror_LastUpdate m;
            Mirror_State := Mirror_State m |}
  else if is_field "last_update" kv.1 then
    t ← decode_Time (Mirror_LastUpdate m) kv.2;
    Some {| Mirror_Url := Mirror_Url m; Mirror_LastUpdate := t;
            Mirror_State := Mirror_State m |}
  else if is_field "state" kv.1 then
    ms ← decode_MirrorState (Mirror_State m) kv.2;
    Some {| Mirror_Url := Mirror_Url m; Mirror_LastUpdate := Mirror_LastUpdate m;
            Mirror_State := ms |}
  else Some m.

Definition decode_Mirror (old : Mirror) (j : json) : option Mirror :=
  match j with
  | JNull => Some old
  | JObject fields => foldM decode_Mirror_field old fields
  | _ => None
  end.

(** Every element of a map is decoded into a zero [Mirror] and then stored
    under its key; a nil map is allocated first. *)
Definition decode_Mirrors_entry (m : gmap string Mirror) (kv : string * json)
  : option (gmap string Mirror) :=
  elem ← decode_Mirror zeroMirror kv.2;
  Some (<[kv.1 := elem]> m).

Definition decode_Mirrors (old : option (gmap string Mirror)) (j : json)
  : option (option (gmap string Mirror)) :=
  match j with
  | JNull => Some None
  | JObject fields => Some <$> foldM decode_Mirrors_entry (default ∅ old) fields
  | _ => None
  end.

Definition decode_State_field (s : State) (kv : string * json) : option State :=
  if is_field "storage_path" kv.1 then
    p ← decode_string (State_StoragePath s) kv.2;
    Some {| State_StoragePath := p; State_UpdateDelta := State_UpdateDelta s;
            State_Mirrors := State_Mirrors s |}
  else if is_field "update_delta" kv.1 then
    d ← decode_int64 (State_UpdateDelta s) kv.2;
    Some {| State_StoragePath := State_StoragePath s; State_UpdateDelta := d;
            State_Mirrors := State_Mirrors s |}
  else if is_field "mirrors" kv.1 then
    mm ← decode_Mirrors (State_Mirrors s) kv.2;
    Some (set_mirrors mm s)
  else Some s.

Definition decode_State (old : State) (j : json) : option State :=
  match j with
  | JNull => Some old
  | JObject fields => foldM decode_State_field old fields
  | _ => None
  end.

(** ** The durable store *)

(** [os.CreateTemp]: the file is created only if no file has the name. *)
Definition save_step_create (io : SaveIO) (tmp : string) (fs : FS) : error * FS :=
  match save_create io with
  | Some err => (Some ("cannot create temporary state file: " +:+ err), fs)
  | None =>
    match fs !! tmp with
    | Some _ => (Some "cannot create temporary state file: file exists", fs)
    | None => (None, <[tmp := None]> fs)
    end
  end.

(** [encoder.Encode]: the document is built first and written in one piece;
    a write that fails leaves no complete document. *)
Definition save_step_encode (io : SaveIO) (s : State) (tmp : string) (fs : FS)
  : error * FS :=
  match encodeState s with
  | None => (Some "cannot write temporary state file: json: error calling MarshalJSON",
             fs)
  | Some doc =>
    match save_write io with
    | Some err => (Some ("cannot write temporary state file: " +:+ err),
                   <[tmp := None]> fs)
    | None => (None, <[tmp := Some doc]> fs)
    end
  end.

Definition save_step_close (io : SaveIO) (fs : FS) : error * FS :=
  match save_close io with
  | Some err => (Some ("failed to close temp file: " +:+ err), fs)
  | None => (None, fs)
  end.

(** [os.Rename] replaces the target in one step or not at all. *)
Definition save_step_rename (io : SaveIO) (tmp target : string) (fs : FS)
  : error * FS :=
  match save_rename io with
  | Some err => (Some ("failed to move temp file to state file: " +:+ err), fs)
  | None =>
    match fs !! tmp with
    | Some c => (None, <[target := c]> (delete tmp fs))
    | None => (Some "failed to move temp file to state file: no such file", fs)
    end
  end.

Definition save_steps (io : SaveIO) (m : Mirrorer) : list (FS → error * FS) :=
  let tmp := tempName (filepath_Dir (dbPath m)) (save_rnd io) in
  [save_step_create io tmp;
   save_step_encode io (state m) tmp;
   save_step_close io;
   save_step_rename io tmp (dbPath m)].

(** Run the steps in order up to the first error. *)
Definition run_steps (steps : list (FS → error * FS)) (fs : FS) : error * FS :=
  foldl (λ acc step, match acc.1 with
                     | Some _ => acc
                     | None => step acc.2
                     end) (None, fs) steps.

Definition updateDb (io : SaveIO) (m : Mirrorer) (fs : FS) : error * FS :=
  run_steps (save_steps io m) fs.

(** A save that is cut off after its first [n] steps. *)
Definition updateDb_upto (n : nat) (io : SaveIO) (m : Mirrorer) (fs : FS)
  : error * FS :=
  run_steps (take n (save_steps io m)) fs.

(** The opening and decoding of [NewMirrorer]. *)
Definition loadState (path : string) (fs : FS) : State + string :=
  match fs !! path with
  | None => inr "failed to open db file: no such file or directory"
  | Some c =>
    match c ≫= decode_State NewState with
    | None => inr "failed to decode db"
    | Some s => inl s
    end
  end.

(** [NewMirrorer] up to the start of [Run]: the mirrorer and the files after
    the first [updateDb], whose error is dropped. *)
Definition NewMirrorer (io : SaveIO) (path : string) (fs : FS)
  : (Mirrorer + string) * FS :=
  if negb (fs_ValidPath path) then (inr ("invalid db path: '" +:+ path +:+ "'"), fs)
  else
    match loadState path fs with
    | inr err => (inr err, fs)
    | inl s =>
      let m := {| dbPath := path; state := s; messages := [] |} in
      (inl m, (updateDb io m fs).2)
    end.

(** ** The add-mirror handler *)

Definition AddMirrorHandler (env : HandlerEnv) (q : Values) (W : World)
  : Result (Response * World) :=
  let w := newResponse in
  let '(w, ok) := checkArgs w q ["name"; "url"] in
  if negb ok then Return (w, W)
  else
    let mirrorName := Values_Get q "name" in
    let mirrorUrl := Values_Get q "url" in
    let m := mirrorer W in
    if map_has (State_Mirrors (state m)) mirrorName then
      Return (http_Error w ("cannot add mirror '" +:+ mirrorName +:+
                            "': already exists") 500, W)
    else
      let now := clock W + Z.of_N (handler_elapsed env) in
      let mirror := {| Mirror_Url := mirrorUrl;
                       Mirror_LastUpdate := now;
                       Mirror_State := MirrorFresh |} in
      mm ←ᵣ map_store (State_Mirrors (state m)) mirrorName mirror;;
      let m' := with_state (set_mirrors mm (state m)) m in
      let '(err, fs') := updateDb (handler_save env) m' (files W) in
      let W' := {| mirrorer := m'; files := fs'; clock := now;
                   trace := trace W ++ [EvMapWrite HandlerTask mirrorName mirror;
                                        EvUpdateDb HandlerTask] |} in
      match err with
      | Some e => Return (http_Error w ("failed to update db: " +:+ e) 500, W')
      | None => Return (w, W')
      end.

(** ** The list-mirrors handler

    The encoder builds the whole document before it writes any of it: the
    response is the document, with the status left to its default, or the
    error alone.  The text of the cause of a [MarshalJSON] error is not
    kept, and a write to the response is taken to succeed. *)
Definition ListMirrorsHandler (W : World) : Response * option json :=
  let w := newResponse in
  match encodeMirrors (State_Mirrors (state (mirrorer W))) with
  | Some doc => (w, Some doc)
  | None => (http_Error w "json: error calling MarshalJSON for type time.Time" 500,
             None)
  end.

(** ** Git operations

    Each returns what it did and its result.  The type assertion on the
    error of [cmd.Output()] has no second result: it panics on an error that
    is not an [*exec.ExitError]. *)

Definition gitCloneMirror (env : CloneEnv) (storagePath mirrorName mirrorUrl : string)
  : list Event * Result error :=
  let dir := filepath_Join storagePath mirrorName in
  match clone_removeAll env with
  | Some err => ([EvRemoveAll dir], Return (Some ("failed to clean target dir: " +:+ err)))
  | None =>
    let evs := [EvRemoveAll dir; EvGitClone mirrorUrl dir] in
    match clone_output env with
    | None => (evs, Return None)
    | Some (ExitError text stderr) =>
      (evs, Return (Some ("mirror failed: " +:+ text +:+ nl +:+ stderr +:+ nl)))
    | Some (OtherError text) =>
      (evs, Panic ("interface conversion: error is not *exec.ExitError: " +:+ text))
    end
  end.

Definition gitRemoteUpdate (output : option CmdErr) (storagePath mirrorName : string)
  : list Event * Result error :=
  let dir := filepath_Join storagePath mirrorName in
  let evs := [EvGitRemoteUpdate dir] in
  match output with
  | None => (evs, Return None)
  | Some (ExitError text stderr) =>
    (evs, Return (Some ("update failed: " +:+ text +:+ nl +:+ stderr +:+ nl)))
  | Some (OtherError text) =>
    (evs, Panic ("interface conversion: error is not *exec.ExitError: " +:+ text))
  end.

(** ** The scheduler *)

(** The body of the first loop of [Run] for the entry [mirrorName]. *)
Definition catchUpOne (W : World) (visit : string * CatchEnv) : Result World :=
  let '(mirrorName, env) := visit in
  let m := mirrorer W in
  match default ∅ (State_Mirrors (state m)) !! mirrorName with
  | None => Return W
  | Some mirror =>
    if decide (Mirror_State mirror = MirrorFresh) then
      let '(evs, r) := gitCloneMirror (catch_clone env)
                         (State_StoragePath (state m)) mirrorName (Mirror_Url mirror) in
      _ ←ᵣ r;;
      let now := clock W + Z.of_N (catch_elapsed env) in
      let mirror' := {| Mirror_Url := Mirror_Url mirror;
                        Mirror_LastUpdate := now;
                        Mirror_State := MirrorReady |} in
      mm ←ᵣ map_store (State_Mirrors (state m)) mirrorName mirror';;
      let m' := with_state (set_mirrors mm (state m)) m in
      let '(_, fs') := updateDb (catch_save env) m' (files W) in
      Return {| mirrorer := m'; files := fs'; clock := now;
                trace := trace W ++ evs ++ [EvMapWrite OwnerTask mirrorName mirror';
                                            EvUpdateDb OwnerTask] |}
    else Return W
  end.

(** The first loop: the entries in the order the range visits them. *)
Fixpoint catchUp (W : World) (visits : list (string * CatchEnv)) : Result World :=
  match visits with
  | [] => Return W
  | v :: visits => W' ←ᵣ catchUpOne W v;; catchUp W' visits
  end.

(** [go func() { time.Sleep(time.Until(nextUpdateTime)); m.messages <- mirrorName }()] *)
Definition arm (mirrorName : string) (nextUpdateTime : Time) (W : World) : World :=
  {| mirrorer := with_messages (messages (mirrorer W) ++ [(mirrorName, nextUpdateTime)])
                   (mirrorer W);
     files := files W; clock := clock W;
     trace := trace W ++ [EvGo mirrorName nextUpdateTime] |}.

(** The body of the second loop of [Run]. *)
Definition armOne (W : World) (mirrorName : string) : World :=
  match default ∅ (State_Mirrors (state (mirrorer W))) !! mirrorName with
  | None => W
  | Some mirror =>
    if decide (Mirror_State mirror = MirrorReady) then
      let nextUpdateTime :=
        Time_Add (Mirror_LastUpdate mirror) (State_UpdateDelta (state (mirrorer W))) in
      arm mirrorName nextUpdateTime W
    else W
  end.

Definition armAll (W : World) (order : list string) : World :=
  foldl armOne W order.

(** The body of the event loop once [mirrorName] is received. *)
Definition handleMessage (env : LoopEnv) (mirrorName : string) (W : World)
  : Result World :=
  let m := mirrorer W in
  let mirror := map_index (State_Mirrors (state m)) mirrorName in
  if decide (Mirror_State mirror = MirrorReady) then
    let '(evs, r) := gitRemoteUpdate (loop_output env)
                       (State_StoragePath (state m)) mirrorName in
    err ←ᵣ r;;
    let now := clock W + Z.of_N (loop_elapsed env) in
    match err with
    | Some _ =>
      Return {| mirrorer := m; files := files W; clock := now;
                trace := trace W ++ evs |}
    | None =>
      let mirror' := {| Mirror_Url := Mirror_Url mirror;
                        Mirror_LastUpdate := now;
                        Mirror_State := Mirror_State mirror |} in
      mm ←ᵣ map_store (State_Mirrors (state m)) mirrorName mirror';;
      let m' := with_state (set_mirrors mm (state m)) m in
      let '(_, fs') := updateDb (loop_save env) m' (files W) in
      let nextUpdateTime := Time_Add (Mirror_LastUpdate mirror')
                                     (State_UpdateDelta (state m')) in
      Return (arm mirrorName nextUpdateTime
                {| mirrorer := m'; files := fs'; clock := now;
                   trace := trace W ++ evs ++ [EvMapWrite OwnerTask mirrorName mirror';
                                               EvUpdateDb OwnerTask] |})
    end
  else Return W.

(** The receive of the event loop: after [loop_wait], the sender number
    [loop_pick] gets through; it cannot while it sleeps, that is while
    [time.Until] of its deadline is positive.  [None] when the environment
    asks for a receive that cannot happen. *)
Definition receive (env : LoopEnv) (W : World) : option (string * World) :=
  let now := clock W + Z.of_N (loop_wait env) in
  match messages (mirrorer W) !! loop_pick env with
  | None => None
  | Some (mirrorName, deadline) =>
    if 0 <? time_Until now deadline then None
    else Some (mirrorName,
               {| mirrorer := with_messages (delete (loop_pick env) (messages (mirrorer W)))
                                (mirrorer W);
                  files := files W; clock := now;
                  trace := trace W ++ [EvRecv OwnerTask mirrorName] |})
  end.

(** One iteration of the event loop. *)
Definition loopIter (env : LoopEnv) (W : World) : option (Result World) :=
  match receive env W with
  | None => None
  | Some (mirrorName, W') => Some (handleMessage env mirrorName W')
  end.

(** [Run] up to the event loop. *)
Definition Run_start (visits : list (string * CatchEnv)) (order : list string)
  (W : World) : Result World :=
  W' ←ᵣ catchUp W visits;;
  Return (armAll W' order).

(** The event loop for as many iterations as the environment has answers
    for; the loop itself never ends. *)
Fixpoint eventLoop (envs : list LoopEnv) (W : World) : option (Result World) :=
  match envs with
  | [] => Some (Return W)
  | env :: envs =>
    match loopIter env W with
    | None => None
    | Some (Panic msg) => Some (Panic msg)
    | Some (Return W') => eventLoop envs W'
    end
  end.

Definition Run (visits : list (string * CatchEnv)) (order : list string)
  (envs : list LoopEnv) (W : World) : option (Result World) :=
  match Run_start visits order W with
  | Panic msg => Some (Panic msg)
  | Return W' => eventLoop envs W'
  end.

(** ** Runs

    After [Run] has started, the world moves by iterations of the event loop
    and by add-mirror requests.  A request that panics is recovered by the
    server and changes nothing. *)
Inductive step : World → World → Prop :=
| step_loop env W W' :
    loopIter env W = Some (Return W') → step W W'
| step_add env q W resp W' :
    AddMirrorHandler env q W = Return (resp, W') → step W W'.

Definition later_in_run : World → World → Prop := rtc step.

(** The senders that wait on the channel. *)
Definition senders (W : World) : list string := (messages (mirrorer W)).*1.

Definition registry (W : World) : option (gmap string Mirror) :=
  State_Mirrors (state (mirrorer W)).

(** Each mirror has at most one sender, and each sender belongs to a
    [Ready] mirror and waits for its [LastUpdate] plus the interval. *)
Definition timer_ok (W : World) (t : string * Time) : Prop :=
  ∃ mirror, default ∅ (registry W) !! t.1 = Some mirror ∧
            Mirror_State mirror = MirrorReady ∧
            t.2 = Mirror_LastUpdate mirror + State_UpdateDelta (state (mirrorer W)).

Definition sched_inv (W : World) : Prop :=
  NoDup (senders W) ∧ Forall (timer_ok W) (messages (mirrorer W)).

(** The registry is written by the owner task only. *)
Definition owner_writes (ev : Event) : Prop :=
  match ev with
  | EvMapWrite t _ _ => t = OwnerTask
  | _ => True
  end.

(** The events of the owner task outside the receive. *)
Definition owner_event (ev : Event) : Prop :=
  match ev with
  | EvMapWrite t _ _ => t = OwnerTask
  | EvRecv _ _ => False
  | _ => True
  end.

(** A snapshot the store can hold: the interval is an [int64] and every
    mirror is [Fresh] or [Ready]. *)
Definition mirror_valid (m : Mirror) : Prop :=
  Mirror_State m = MirrorFresh ∨ Mirror_State m = MirrorReady.

Definition state_valid (s : State) : Prop :=
  in_int64 (State_UpdateDelta s) = true ∧
  ∀ k m, default ∅ (State_Mirrors s) !! k = Some m → mirror_valid m.

(** The document has no key for the field [tag]. *)
Definition omits (tag : string) (doc : json) : Prop :=
  match doc with
  | JObject fields => Forall (λ kv, is_field tag kv.1 = false) fields
  | _ => True
  end.

(** The events that clear the directory of a mirror or clone into it. *)
Definition clone_event (ev : Event) : Prop :=
  match ev with
  | EvRemoveAll _ | EvGitClone _ _ => True
  | _ => False
  end.

(** Every write of the registry is followed at once by a save by the task
    that wrote. *)
Fixpoint saved_after_write (tr : list Event) : Prop :=
  match tr with
  | [] => True
  | EvMapWrite t _ _ :: rest =>
    (∃ rest', rest = EvUpdateDb t :: rest') ∧ saved_after_write rest
  | _ :: rest => saved_after_write rest
  end.

(** The sender the second loop of [Run] starts for a name, if any. *)
Definition armed (W : World) (mirrorName : string) : option (string * Time) :=
  mirror ← default ∅ (State_Mirrors (state (mirrorer W))) !! mirrorName;
  if decide (Mirror_State mirror = MirrorReady)
  then Some (mirrorName,
             Time_Add (Mirror_LastUpdate mirror) (State_UpdateDelta (state (mirrorer W))))
  else None.

(** The world after the second loop of [Run] on [due_world]: [repo2] has a
    sender that is due, [repo1] has none. *)
Definition armed_world : World := armAll due_world ["repo1"; "repo2"].

(** * Properties *)

(** ** Mirror states as text *)

Lemma ParseMirrorState_invalid str :
  str ≠ "Fresh" → str ≠ "Ready" →
  ParseMirrorState str = (0, Some ("invalid MirrorState: " +:+ str)).
Proof.
  intros Hf Hr. unfold ParseMirrorState.
  destruct (decide (str = "Fresh")); [done|].
  destruct (decide (str = "Ready")); done.
Qed.

(** C10: for the two valid states, [UnmarshalText] of [MarshalText] succeeds
    and gives the state back; on every string other than "Fresh" and
    "Ready", [ParseMirrorState] and [UnmarshalText] return an error and
    [UnmarshalText] leaves the receiver as it was. *)
Theorem MirrorState_text_roundtrip :
  (∀ (s old : MirrorState),
     s = MirrorFresh ∨ s = MirrorReady →
     (MirrorState_MarshalText s).2 = None ∧
     MirrorState_UnmarshalText old (MirrorState_MarshalText s).1 = (s, None)) ∧
  (∀ (str : string) (old : MirrorState),
     str ≠ "Fresh" → str ≠ "Ready" →
     (∃ err, (ParseMirrorState str).2 = Some err) ∧
     (∃ err, MirrorState_UnmarshalText old str = (old, Some err))).
Proof.
  split.
  - intros s old [-> | ->]; split; reflexivity.
  - intros str old Hf Hr. unfold MirrorState_UnmarshalText.
    rewrite (ParseMirrorState_invalid str Hf Hr). eauto.
Qed.

(** ** Loading *)

Lemma bind_Some_inv {A B} (o : option A) (f : A → option B) (b : B) :
  o ≫= f = Some b → ∃ a, o = Some a ∧ f a = Some b.
Proof. destruct o as [a|]; [eauto | discriminate]. Qed.

Lemma decode_State_field_keeps_delta s0 s kv :
  is_field "update_delta" kv.1 = false →
  decode_State_field s0 kv = Some s →
  State_UpdateDelta s = State_UpdateDelta s0.
Proof.
  intros Hk. unfold decode_State_field. rewrite Hk.
  destruct (is_field "storage_path" kv.1).
  - intros (p & _ & [= <-])%bind_Some_inv. reflexivity.
  - destruct (is_field "mirrors" kv.1).
    + intros (mm & _ & [= <-])%bind_Some_inv. reflexivity.
    + intros [= <-]. reflexivity.
Qed.

Lemma decode_State_field_keeps_mirrors s0 s kv :
  is_field "mirrors" kv.1 = false →
  decode_State_field s0 kv = Some s →
  State_Mirrors s = State_Mirrors s0.
Proof.
  intros Hk. unfold decode_State_field. rewrite Hk.
  destruct (is_field "storage_path" kv.1).
  - intros (p & _ & [= <-])%bind_Some_inv. reflexivity.
  - destruct (is_field "update_delta" kv.1).
    + intros (d & _ & [= <-])%bind_Some_inv. reflexivity.
    + intros [= <-]. reflexivity.
Qed.

Lemma foldM_keeps {A B C} (f : A → B → option A) (proj : A → C) (P : B → Prop) :
  (∀ a a' b, P b → f a b = Some a' → proj a' = proj a) →
  ∀ l a a', Forall P l → foldM f a l = Some a' → proj a' = proj a.
Proof.
  intros Hf l. induction l as [|b l IH]; intros a a' Hl; simpl.
  - intros [= <-]. reflexivity.
  - inversion_clear Hl as [|? ? Hb Hl'].
    intros (a1 & H1 & H2)%bind_Some_inv.
    rewrite (IH _ _ Hl' H2). eauto.
Qed.


(** ** Saving *)

Lemma run_steps_cons step steps fs :
  run_steps (step :: steps) fs =
  match (step fs).1 with
  | Some err => (step fs)
  | None => run_steps steps (step fs).2
  end.
Proof.
  unfold run_steps. simpl. destruct (step fs) as [[err|] fs1]; simpl; [|done].
  induction steps as [|st steps IH]; simpl; [done|]. exact IH.
Qed.

Lemma run_steps_nil fs : run_steps [] fs = (None, fs).
Proof. reflexivity. Qed.

(** What a save that returns no error has done. *)
Lemma updateDb_success io m fs fs' :
  updateDb io m fs = (None, fs') →
  let tmp := tempName (filepath_Dir (dbPath m)) (save_rnd io) in
  ∃ doc, encodeState (state m) = Some doc ∧ fs !! tmp = None ∧
         fs' = <[dbPath m := Some doc]> (delete tmp (<[tmp := Some doc]> (<[tmp := None]> fs))).
Proof.
  intros H tmp. unfold updateDb, save_steps in H. fold tmp in H.
  rewrite !run_steps_cons, run_steps_nil in H.
  unfold save_step_create in H.
  destruct (save_create io); [discriminate H|].
  destruct (fs !! tmp) eqn:Htmp; [discriminate H|]. cbn [fst snd] in H.
  unfold save_step_encode in H.
  destruct (encodeState (state m)) as [doc|]; [|discriminate H].
  destruct (save_write io); [discriminate H|]. cbn [fst snd] in H.
  unfold save_step_close in H.
  destruct (save_close io); [discriminate H|]. cbn [fst snd] in H.
  unfold save_step_rename in H.
  destruct (save_rename io); [discriminate H|].
  rewrite lookup_insert_eq in H. cbn [fst snd] in H. injection H as <-.
  exists doc. done.
Qed.

(** ** Save, then load *)

(** Decide the matches of the keys that are written out. *)
Ltac eval_fields :=
  repeat match goal with
  | |- context [is_field ?tag ?key] =>
    let b := eval vm_compute in (is_field tag key) in
    change (is_field tag key) with b; cbv iota
  end.

Section RoundTrip.

(** The two halves of the time format fit: what [MarshalJSON] writes,
    [UnmarshalJSON] reads back as the same instant. *)
Hypothesis time_roundtrip :
  ∀ t s, time_MarshalJSON t = Some s → time_UnmarshalJSON s = Some t.

Lemma decode_encode_Mirror (m : Mirror) (j : json) :
  mirror_valid m →
  encodeMirror m = Some j →
  decode_Mirror zeroMirror j = Some m.
Proof using time_roundtrip.
  intros Hv. unfold encodeMirror.
  intros (stamp & Hstamp & [= <-])%bind_Some_inv.
  apply time_roundtrip in Hstamp.
  destruct m as [url t ms]. simpl in *.
  unfold decode_Mirror, foldM, decode_Mirror_field. cbn [fst snd].
  eval_fields. cbn [decode_string decode_Time mbind option_bind Mirror_LastUpdate].
  rewrite Hstamp. cbn [mbind option_bind Mirror_Url Mirror_State Mirror_LastUpdate].
  eval_fields. cbn [decode_MirrorState].
  destruct Hv as [Hs | Hs]; simpl in Hs; subst ms; reflexivity.
Qed.

Lemma decode_encode_entries (kvs : list (string * Mirror)) :
  ∀ (l : list (string * json)) (acc : gmap string Mirror),
  Forall (λ kv, mirror_valid kv.2) kvs →
  mapM (λ kv, j ← encodeMirror kv.2; Some (kv.1, j)) kvs = Some l →
  foldM decode_Mirrors_entry acc l = Some (foldl store_entry acc kvs).
Proof using time_roundtrip.
  induction kvs as [|kv kvs IH]; intros l acc Hv Hl.
  - injection Hl as <-. reflexivity.
  - inversion_clear Hv as [|? ? Hkv Hkvs].
    apply mapM_Some in Hl. inversion Hl as [|? y ? l' Hy Hl']; subst.
    apply bind_Some_inv in Hy as (j & Hj & [= <-]).
    apply mapM_Some in Hl'.
    cbn [foldM foldl].
    assert (decode_Mirrors_entry acc (kv.1, j) = Some (store_entry acc kv)) as ->.
    { unfold decode_Mirrors_entry. cbn [fst snd].
      by rewrite (decode_encode_Mirror _ _ Hkv Hj). }
    cbn [mbind option_bind]. by apply IH.
Qed.

Lemma lookup_foldl_store (kvs : list (string * Mirror)) :
  ∀ (acc : gmap string Mirror) (k : string),
  NoDup kvs.*1 →
  foldl store_entry acc kvs !! k =
  match (list_to_map kvs : gmap string Mirror) !! k with
  | Some v => Some v
  | None => acc !! k
  end.
Proof using time_roundtrip.
  induction kvs as [|[k0 v0] kvs IH]; intros acc k Hnd; simpl.
  - by rewrite lookup_empty.
  - apply NoDup_cons in Hnd as [Hk0 Hnd].
    rewrite (IH _ _ Hnd). unfold store_entry. cbn [fst snd].
    destruct (decide (k0 = k)) as [->|Hne].
    + rewrite !lookup_insert_eq.
      by rewrite (not_elem_of_list_to_map_1 _ _ Hk0).
    + rewrite !lookup_insert_ne by done. reflexivity.
Qed.

Lemma foldl_store_sorted (m : gmap string Mirror) :
  foldl store_entry ∅ (merge_sort key_le (map_to_list m)) = m.
Proof using time_roundtrip.
  pose proof (merge_sort_Permutation key_le (map_to_list m)) as Hp.
  assert (NoDup (merge_sort key_le (map_to_list m)).*1) as Hnd.
  { rewrite Hp. apply NoDup_fst_map_to_list. }
  apply map_eq. intros k. rewrite (lookup_foldl_store _ _ _ Hnd).
  rewrite (list_to_map_proper _ _ Hnd Hp), list_to_map_to_list.
  rewrite lookup_empty. by destruct (m !! k).
Qed.

Lemma decode_encode_Mirrors (mm : option (gmap string Mirror)) (j : json) :
  (∀ k m, default ∅ mm !! k = Some m → mirror_valid m) →
  encodeMirrors mm = Some j →
  decode_Mirrors (Some ∅) j = Some mm.
Proof using time_roundtrip.
  intros Hv. destruct mm as [m|]; simpl.
  - destruct (mapM _ _) as [l|] eqn:Hl; [|discriminate]. intros [= <-].
    simpl. erewrite decode_encode_entries; [|..|exact Hl].
    + simpl. by rewrite foldl_store_sorted.
    + rewrite (merge_sort_Permutation key_le (map_to_list m)).
      apply Forall_forall. intros [k v] Hkv%elem_of_map_to_list.
      simpl. eapply (Hv k). exact Hkv.
  - intros [= <-]. reflexivity.
Qed.

Lemma decode_encode_State (s : State) (doc : json) :
  state_valid s →
  encodeState s = Some doc →
  decode_State NewState doc = Some s.
Proof using time_roundtrip.
  intros [Hd Hv]. unfold encodeState.
  intros (mirrors & Hm & [= <-])%bind_Some_inv.
  pose proof (decode_encode_Mirrors _ _ Hv Hm) as Hdec.
  destruct s as [path delta mm]. simpl in *.
  unfold decode_State_field. cbn [fst snd].
  eval_fields.
  cbn [decode_string decode_int64 mbind option_bind
       State_StoragePath State_UpdateDelta State_Mirrors].
  rewrite Hd. cbn [mbind option_bind State_StoragePath State_UpdateDelta State_Mirrors].
  eval_fields. rewrite Hdec. reflexivity.
Qed.


End RoundTrip.

(** ** A save never leaves a partial target *)

Lemma save_create_target io tmp target fs e fs1 :
  is_Some (fs !! target) →
  save_step_create io tmp fs = (e, fs1) →
  fs1 !! target = fs !! target ∧ (e = None → fs !! tmp = None ∧ tmp ≠ target).
Proof.
  intros [c Hc]. unfold save_step_create.
  destruct (save_create io); [by intros [= <- <-]|].
  destruct (fs !! tmp) eqn:Htmp; [by intros [= <- <-]|].
  intros [= <- <-].
  assert (tmp ≠ target) by congruence.
  by rewrite lookup_insert_ne.
Qed.

Lemma save_encode_target io s tmp target fs e fs1 :
  tmp ≠ target →
  save_step_encode io s tmp fs = (e, fs1) →
  fs1 !! target = fs !! target.
Proof.
  intros Hne. unfold save_step_encode.
  destruct (encodeState s); [|by intros [= <- <-]].
  destruct (save_write io); intros [= <- <-]; by rewrite lookup_insert_ne.
Qed.

Lemma save_close_target io fs e fs1 :
  save_step_close io fs = (e, fs1) → fs1 = fs.
Proof. unfold save_step_close. by destruct (save_close io); intros [= <- <-]. Qed.

Lemma save_rename_failed io tmp target fs msg fs1 :
  save_step_rename io tmp target fs = (Some msg, fs1) → fs1 = fs.
Proof.
  unfold save_step_rename. destruct (save_rename io); [by intros [= <- <-]|].
  by destruct (fs !! tmp); intros [= <-].
Qed.

Lemma updateDb_upto_target io m fs n e fs' :
  is_Some (fs !! dbPath m) →
  updateDb_upto n io m fs = (e, fs') →
  (n < 4)%nat ∨ is_Some e →
  fs' !! dbPath m = fs !! dbPath m.
Proof.
  intros Htarget. unfold updateDb_upto, save_steps.
  set (tmp := tempName (filepath_Dir (dbPath m)) (save_rnd io)).
  destruct n as [|n]; [by intros [= <- <-]|].
  cbn [take]. rewrite run_steps_cons.
  destruct (save_step_create io tmp fs) as [e1 fs1] eqn:H1.
  destruct (save_create_target _ _ _ _ _ _ Htarget H1) as [Ht1 Hfresh].
  destruct e1 as [msg|]; cbn [fst snd]; [by intros [= <- <-]|].
  destruct (Hfresh eq_refl) as [_ Hne].
  destruct n as [|n]; [cbn [take]; rewrite run_steps_nil; by intros [= <- <-]|].
  cbn [take]. rewrite run_steps_cons.
  destruct (save_step_encode io (state m) tmp fs1) as [e2 fs2] eqn:H2.
  pose proof (save_encode_target _ _ _ _ _ _ _ Hne H2) as Ht2.
  destruct e2 as [msg|]; cbn [fst snd]; [intros [= <- <-]; congruence|].
  destruct n as [|n];
    [cbn [take]; rewrite run_steps_nil; intros [= <- <-]; congruence|].
  cbn [take]. rewrite run_steps_cons.
  destruct (save_step_close io fs2) as [e3 fs3] eqn:H3.
  apply save_close_target in H3 as ->.
  destruct e3 as [msg|]; cbn [fst snd]; [intros [= <- <-]; congruence|].
  destruct n as [|n];
    [cbn [take]; rewrite run_steps_nil; intros [= <- <-]; congruence|].
  cbn [take]. rewrite take_nil, run_steps_cons, run_steps_nil.
  destruct (save_step_rename io tmp (dbPath m) fs2) as [e4 fs4] eqn:H4.
  destruct e4 as [msg|]; cbn [fst snd].
  - apply save_rename_failed in H4 as ->. intros [= <- <-]. congruence.
  - intros [= <- <-] [Hn | [? [=]]]. lia.
Qed.

Lemma updateDb_upto_all io m fs n :
  (4 ≤ n)%nat → updateDb_upto n io m fs = updateDb io m fs.
Proof.
  intros Hn. unfold updateDb_upto, updateDb.
  rewrite take_ge; [done|]. simpl. lia.
Qed.

Lemma updateDb_reports io m fs :
  is_Some (save_create io) ∨ encodeState (state m) = None ∨
  is_Some (save_write io) ∨ is_Some (save_close io) →
  is_Some (updateDb io m fs).1.
Proof.
  intros Hfail. unfold updateDb, save_steps.
  set (tmp := tempName (filepath_Dir (dbPath m)) (save_rnd io)).
  rewrite !run_steps_cons, run_steps_nil.
  unfold save_step_create.
  destruct (save_create io) as [e|] eqn:Hc; [by eexists|].
  destruct (fs !! tmp); [by eexists|]. cbn [fst snd].
  unfold save_step_encode.
  destruct (encodeState (state m)) as [doc|] eqn:He; [|by eexists].
  destruct (save_write io) as [e|] eqn:Hw; [by eexists|]. cbn [fst snd].
  unfold save_step_close.
  destruct (save_close io) as [e|] eqn:Hcl; [by eexists|].
  destruct Hfail as [[? [=]]|[[=]|[[? [=]]|[? [=]]]]].
Qed.

(** The temporary file is in the directory of the target. *)
Lemma no_slash_app a b : no_slash (a +:+ b) = no_slash a && no_slash b.
Proof. induction a as [|c a IH]; simpl; [done|]. rewrite IH. by rewrite andb_assoc. Qed.

Lemma before_last_slash_none s : no_slash s = true → before_last_slash s = None.
Proof.
  induction s as [|c s IH]; simpl; [done|].
  intros [Hc Hs]%andb_true_iff. rewrite (IH Hs).
  destruct (decide (c = slash)) as [->|]; [|done]. by vm_compute in Hc.
Qed.

Lemma before_last_slash_join a name :
  before_last_slash name = None →
  before_last_slash (a +:+ "/" +:+ name) = Some a.
Proof.
  intros Hn. induction a as [|c a IH].
  - change (before_last_slash (String slash name) = Some "").
    cbn [before_last_slash]. rewrite Hn. reflexivity.
  - change (before_last_slash (String c (a +:+ "/" +:+ name)) = Some (String c a)).
    cbn [before_last_slash]. by rewrite IH.
Qed.

Lemma ends_with_slash_inv d : ends_with_slash d = true → ∃ d0, d = d0 +:+ "/".
Proof.
  induction d as [|c d IH]; simpl; [done|].
  destruct d as [|c' d'].
  - intros ->%bool_decide_eq_true. by exists "".
  - intros (d0 & ->)%IH. by exists (String c d0).
Qed.

Lemma before_last_slash_split s d :
  before_last_slash s = Some d → ∃ rest, s = d +:+ "/" +:+ rest.
Proof.
  revert d. induction s as [|c s IH]; simpl; [done|]. intros d.
  destruct (before_last_slash s) as [d'|].
  - intros [= <-]. destruct (IH d' eq_refl) as (rest & ->). by exists rest.
  - destruct (decide (c = slash)) as [->|]; [|done]. intros [= <-]. by exists s.
Qed.

Lemma split_slash_double cur a b :
  forallb valid_elem (split_slash cur (a +:+ "/" +:+ "/" +:+ b)) = false.
Proof.
  revert cur. induction a as [|c a IH]; intros cur; simpl.
  - by rewrite andb_false_r.
  - destruct (decide (c = slash)); simpl; [|apply IH].
    rewrite IH. apply andb_false_r.
Qed.

Lemma split_slash_leading s :
  forallb valid_elem (split_slash "" ("/" +:+ s)) = false.
Proof. reflexivity. Qed.

Lemma string_app_assoc (a b c : string) : (a +:+ b) +:+ c = a +:+ (b +:+ c).
Proof. induction a as [|x a IH]; simpl; [done|]. unfold String.append in *. simpl. by rewrite IH. Qed.

Lemma tempName_same_dir path rnd :
  fs_ValidPath path = true → no_slash rnd = true →
  filepath_Dir (tempName (filepath_Dir path) rnd) = filepath_Dir path.
Proof.
  intros Hvalid Hrnd.
  assert (before_last_slash ("looter." +:+ rnd +:+ ".tmp") = None) as Hname.
  { apply before_last_slash_none. by rewrite !no_slash_app, Hrnd. }
  unfold fs_ValidPath in Hvalid. apply orb_true_iff in Hvalid as [Hdot|Hall].
  { apply bool_decide_eq_true in Hdot as ->. unfold tempName, filepath_Dir at 2 3.
    simpl before_last_slash. unfold joinPath. simpl ends_with_slash.
    unfold filepath_Dir. by rewrite (before_last_slash_join "." _ Hname). }
  unfold filepath_Dir at 2 3.
  destruct (before_last_slash path) as [d|] eqn:Hd.
  - apply before_last_slash_split in Hd as (rest & ->).
    destruct d as [|c d].
    { change (forallb valid_elem (split_slash "" ("/" +:+ rest)) = true) in Hall.
      by rewrite split_slash_leading in Hall. }
    unfold tempName, joinPath.
    destruct (ends_with_slash (String c d)) eqn:Hends.
    { apply ends_with_slash_inv in Hends as (d0 & Hd0). rewrite Hd0 in Hall.
      rewrite string_app_assoc in Hall. by rewrite split_slash_double in Hall. }
    unfold filepath_Dir. by rewrite (before_last_slash_join _ _ Hname).
  - unfold tempName, joinPath. simpl ends_with_slash.
    unfold filepath_Dir. by rewrite (before_last_slash_join "." _ Hname).
Qed.

Lemma updateDb_written io m fs fs' :
  updateDb io m fs = (None, fs') →
  let tmp := tempName (filepath_Dir (dbPath m)) (save_rnd io) in
  ∃ doc, encodeState (state m) = Some doc ∧
         updateDb_upto 3 io m fs = (None, <[tmp := Some doc]> fs).
Proof.
  intros H tmp. unfold updateDb, updateDb_upto, save_steps in *. fold tmp in H |- *.
  cbn [take]. rewrite !run_steps_cons, run_steps_nil in *.
  unfold save_step_create in *.
  destruct (save_create io); [discriminate H|].
  destruct (fs !! tmp) eqn:Htmp; [discriminate H|]. cbn [fst snd] in *.
  unfold save_step_encode in *.
  destruct (encodeState (state m)) as [doc|]; [|discriminate H].
  destruct (save_write io); [discriminate H|]. cbn [fst snd] in *.
  unfold save_step_close in *.
  destruct (save_close io); [discriminate H|]. cbn [fst snd] in *.
  exists doc. by rewrite insert_insert_eq.
Qed.

(** C4: a save writes the whole snapshot to a new temporary file, which is
    in the directory of the target (for a valid path the directory of the
    one is the directory of the other), and only then renames it over the
    target; a step that fails before the rename makes the save return an
    error; and whenever the save returns an error, or is cut off before the
    rename, the target is as it was, so that a load gives what it gave
    before. *)
Theorem updateDb_atomic (io : SaveIO) (m : Mirrorer) (fs : FS) :
  is_Some (fs !! dbPath m) →
  let tmp := joinPath (filepath_Dir (dbPath m)) ("looter." +:+ save_rnd io +:+ ".tmp") in
  (fs_ValidPath (dbPath m) = true → no_slash (save_rnd io) = true →
   filepath_Dir tmp = filepath_Dir (dbPath m)) ∧
  (∀ fs', updateDb io m fs = (None, fs') →
     ∃ doc, encodeState (state m) = Some doc ∧
            fs !! tmp = None ∧
            updateDb_upto 3 io m fs = (None, <[tmp := Some doc]> fs) ∧
            fs' = <[dbPath m := Some doc]> fs) ∧
  (is_Some (save_create io) ∨ encodeState (state m) = None ∨
   is_Some (save_write io) ∨ is_Some (save_close io) →
   is_Some (updateDb io m fs).1) ∧
  (∀ n e fs', updateDb_upto n io m fs = (e, fs') →
     (n < 4)%nat ∨ is_Some e →
     fs' !! dbPath m = fs !! dbPath m ∧
     loadState (dbPath m) fs' = loadState (dbPath m) fs).
Proof.
  intros Htarget tmp. split; [|split; [|split]].
  - apply tempName_same_dir.
  - intros fs' Hsave.
    destruct (updateDb_success _ _ _ _ Hsave) as (doc & Henc & Hfresh & ->).
    destruct (updateDb_written _ _ _ _ Hsave) as (doc' & Henc' & Hupto).
    assert (doc' = doc) as -> by congruence.
    exists doc. repeat split; [done..|].
    by rewrite insert_insert_eq, delete_insert_id.
  - apply updateDb_reports.
  - intros n e fs' Hrun Hcut.
    pose proof (updateDb_upto_target _ _ _ _ _ _ Htarget Hrun Hcut) as Hsame.
    split; [done|]. unfold loadState. by rewrite Hsame.
Qed.

(** ** Adding a mirror *)

Lemma checkArgs_present w (q : Values) :
  Values_Has q "name" = true → Values_Has q "url" = true →
  checkArgs w q ["name"; "url"] = (w, true).
Proof.
  intros Hn Hu. unfold checkArgs.
  rewrite !filter_cons, filter_nil, Hn, Hu. reflexivity.
Qed.

Lemma map_has_true mm k : map_has mm k = true ↔ is_Some (default ∅ mm !! k).
Proof. unfold map_has. apply bool_decide_eq_true. Qed.

Lemma map_has_false mm k : map_has mm k = false ↔ default ∅ mm !! k = None.
Proof.
  unfold map_has. rewrite bool_decide_eq_false. by rewrite eq_None_not_Some.
Qed.


(** ** The event loop *)

Lemma map_index_absent mm k :
  default ∅ mm !! k = None → map_index mm k = zeroMirror.
Proof. unfold map_index. by intros ->. Qed.

Lemma map_index_present mm k mirror :
  default ∅ mm !! k = Some mirror → map_index mm k = mirror.
Proof. unfold map_index. by intros ->. Qed.

Lemma map_index_Ready mm k :
  Mirror_State (map_index mm k) = MirrorReady →
  ∃ m, mm = Some m ∧ m !! k = Some (map_index mm k).
Proof.
  unfold map_index. destruct mm as [m|]; simpl.
  - destruct (m !! k) as [mirror|] eqn:Hk; simpl; [eauto|discriminate].
  - rewrite lookup_empty. discriminate.
Qed.

Lemma receive_inv env W name W1 :
  receive env W = Some (name, W1) →
  ∃ deadline : Time,
    messages (mirrorer W) !! loop_pick env = Some (name, deadline) ∧
    deadline ≤ clock W + Z.of_N (loop_wait env) ∧
    W1 = {| mirrorer := with_messages (delete (loop_pick env) (messages (mirrorer W)))
                          (mirrorer W);
            files := files W;
            clock := clock W + Z.of_N (loop_wait env);
            trace := trace W ++ [EvRecv OwnerTask name] |}.
Proof.
  unfold receive.
  destruct (messages (mirrorer W) !! loop_pick env) as [[n d]|] eqn:Hpick; [|done].
  unfold time_Until.
  destruct (Z.ltb_spec 0 (d - (clock W + Z.of_N (loop_wait env)))); [done|].
  intros [= <- <-]. exists d. split; [done|]. split; [lia|done].
Qed.

(** C8: when the name received is not in the registry, or its mirror is not
    [Ready], the iteration does nothing: the world after it is the world
    before it, so no git command has run, no entry was created or changed
    and nothing was saved; for a whole iteration, only the message is
    gone. *)
Theorem handleMessage_not_Ready (env : LoopEnv) (name : string) (W : World) :
  default ∅ (registry W) !! name = None ∨
  Mirror_State (map_index (registry W) name) ≠ MirrorReady →
  handleMessage env name W = Return W ∧
  (∀ W0, receive env W0 = Some (name, W) →
     loopIter env W0 = Some (Return W) ∧
     state (mirrorer W) = state (mirrorer W0) ∧
     files W = files W0 ∧
     trace W = (trace W0 ++ [EvRecv OwnerTask name])%list).
Proof.
  intros Hnot.
  assert (Mirror_State (map_index (registry W) name) ≠ MirrorReady) as Hne.
  { destruct Hnot as [Habs|Hne]; [|done].
    rewrite (map_index_absent _ _ Habs). discriminate. }
  assert (handleMessage env name W = Return W) as Hnoop.
  { unfold handleMessage. fold (registry W).
    by destruct (decide (Mirror_State (map_index (registry W) name) = MirrorReady)). }
  split; [done|]. intros W0 Hrecv.
  unfold loopIter. rewrite Hrecv. split; [by rewrite Hnoop|].
  apply receive_inv in Hrecv as (d & _ & _ & ->). done.
Qed.

(** What an iteration can do to the mirrorer: nothing, or bump the time
    stamp of the [Ready] mirror it received and start a sender for it. *)
Lemma handleMessage_effect env name W W' :
  handleMessage env name W = Return W' →
  (mirrorer W' = mirrorer W ∧ files W' = files W ∧
   ∃ evs, trace W' = (trace W ++ evs)%list ∧
          (evs = [] ∨ evs = [EvGitRemoteUpdate
                               (filepath_Join (State_StoragePath (state (mirrorer W))) name)])) ∨
  (∃ mm mirror,
     registry W = Some mm ∧ mm !! name = Some mirror ∧
     Mirror_State mirror = MirrorReady ∧
     loop_output env = None ∧
     let now := clock W + Z.of_N (loop_elapsed env) in
     let mirror' := {| Mirror_Url := Mirror_Url mirror;
                       Mirror_LastUpdate := now;
                       Mirror_State := MirrorReady |} in
     let m' := with_state (set_mirrors (Some (<[name := mirror']> mm))
                             (state (mirrorer W))) (mirrorer W) in
     let next := now + State_UpdateDelta (state (mirrorer W)) in
     clock W' = now ∧
     mirrorer W' = with_messages (messages (mirrorer W) ++ [(name, next)]) m' ∧
     files W' = (updateDb (loop_save env) m' (files W)).2 ∧
     trace W' = (trace W ++
                 [EvGitRemoteUpdate (filepath_Join (State_StoragePath (state (mirrorer W))) name);
                  EvMapWrite OwnerTask name mirror';
                  EvUpdateDb OwnerTask;
                  EvGo name next])%list).
Proof.
  unfold handleMessage. fold (registry W).
  destruct (decide (Mirror_State (map_index (registry W) name) = MirrorReady))
    as [Hready|Hnot].
  2:{ intros [= <-]. left. repeat split. exists []. split; [by rewrite app_nil_r|by left]. }
  destruct (map_index_Ready _ _ Hready) as (mm & Hmm & Hlook).
  set (mirror := map_index (registry W) name) in *.
  unfold gitRemoteUpdate.
  destruct (loop_output env) as [[text stderr|text]|] eqn:Hout; cbn [bindR].
  - intros [= <-]. left. repeat split. eexists. split; [reflexivity|by right].
  - discriminate.
  - rewrite Hmm, Hready. cbn [map_store bindR].
    destruct (updateDb _ _ _) as [e fs'] eqn:Hsave.
    intros [= <-]. right. exists mm, mirror.
    rewrite Hsave.
    repeat split; try done.
    cbn [trace arm]. by rewrite <- !app_assoc.
Qed.

(** What a request can do to the world: nothing, or store a new [Fresh]
    mirror and save, all of it within the handler. *)
Lemma AddMirrorHandler_effect env q W resp W' :
  AddMirrorHandler env q W = Return (resp, W') →
  W' = W ∨
  (∃ mm name mirror,
     registry W = Some mm ∧ mm !! name = None ∧
     Mirror_State mirror = MirrorFresh ∧
     let m' := with_state (set_mirrors (Some (<[name := mirror]> mm))
                             (state (mirrorer W))) (mirrorer W) in
     mirrorer W' = m' ∧
     files W' = (updateDb (handler_save env) m' (files W)).2 ∧
     trace W' = (trace W ++ [EvMapWrite HandlerTask name mirror;
                             EvUpdateDb HandlerTask])%list).
Proof.
  unfold AddMirrorHandler.
  destruct (checkArgs newResponse q ["name"; "url"]) as [w ok].
  destruct ok; cbn [negb]; [|intros [= _ <-]; by left].
  destruct (map_has _ _) eqn:Hhas; [intros [= _ <-]; by left|].
  apply map_has_false in Hhas.
  destruct (State_Mirrors (state (mirrorer W))) as [mm|] eqn:Hmm;
    cbn [map_store bindR]; [|discriminate].
  destruct (updateDb _ _ _) as [e fs'] eqn:Hsave.
  intros Hret. right. eexists mm, _, _. unfold registry. rewrite Hmm.
  split; [done|]. split; [exact Hhas|].
  destruct e; injection Hret as _ <-; cbn [mirrorer files trace]; rewrite Hsave; done.
Qed.

Lemma senders_delete (l : list (string * Time)) (i : nat) (n : string) (d : Time) :
  l !! i = Some (n, d) →
  (∀ k, k ∈ fst <$> delete i l → k ∈ fst <$> l) ∧
  (NoDup (fst <$> l) → (n ∉ fst <$> delete i l) ∧ NoDup (fst <$> delete i l)) ∧
  (∀ t, t ∈ delete i l → t ∈ l).
Proof.
  clear time_MarshalJSON time_UnmarshalJSON.
  intros Hi. pose proof (take_drop_middle _ _ _ Hi) as Hl.
  rewrite delete_take_drop.
  remember (take i l) as a eqn:Ha. remember (drop (S i) l) as b eqn:Hb.
  clear Ha Hb Hi. subst l.
  rewrite !fmap_app, fmap_cons. cbn [fst]. split; [|split].
  - intros k. rewrite !elem_of_app, elem_of_cons. tauto.
  - intros Hnd. apply NoDup_app in Hnd as (Ht & Hd & Hnd).
    apply NoDup_cons in Hnd as [Hn Hdr]. split.
    + rewrite elem_of_app. intros [Hin|Hin]; [|done].
      apply (Hd _ Hin). by left.
    + apply NoDup_app. repeat split; [done| |done].
      intros k Hk Hk'. apply (Hd _ Hk). by right.
  - intros t. rewrite !elem_of_app, elem_of_cons. tauto.
Qed.

(** A step starts no sender for a mirror that has none, and does not touch
    the record of such a mirror. *)
Lemma step_without_sender W W' name mirror :
  step W W' →
  (name ∉ senders W) →
  default ∅ (registry W) !! name = Some mirror →
  (name ∉ senders W') ∧ default ∅ (registry W') !! name = Some mirror.
Proof.
  intros Hstep Hnone Hrec. destruct Hstep as [env W W' Hloop|env q W resp W' Hadd].
  - unfold loopIter in Hloop.
    destruct (receive env W) as [[n0 W1]|] eqn:Hrecv; [|discriminate].
    injection Hloop as Hloop.
    apply receive_inv in Hrecv as (d & Hpick & _ & ->).
    destruct (senders_delete _ _ _ _ Hpick) as (Hsub & _ & _).
    assert (n0 ≠ name) as Hne.
    { intros ->. apply Hnone. unfold senders.
      apply list_elem_of_fmap. exists (name, d). split; [done|].
      by eapply list_elem_of_lookup_2. }
    apply handleMessage_effect in Hloop
      as [(Hm & _)|(mm & mi & Hmm & Hlook & _ & _ & _ & Hm & _)].
    + unfold senders, registry in *. rewrite Hm. cbn [mirrorer messages with_messages state].
      split; [|done]. intros Hin. apply Hnone. by apply Hsub.
    + unfold senders, registry in *. rewrite Hm.
      cbn [mirrorer messages with_messages with_state state State_Mirrors set_mirrors] in *.
      split.
      * rewrite fmap_app, elem_of_app. cbn [fmap list_fmap fst].
        intros [Hin|Hin%list_elem_of_singleton]; [|done].
        apply Hnone. by apply Hsub.
      * rewrite Hmm in Hrec. cbn [from_option id] in *. by rewrite lookup_insert_ne.
  - apply AddMirrorHandler_effect in Hadd
      as [->|(mm & n0 & mi & Hmm & Hfresh & _ & Hm & _)]; [done|].
    unfold senders, registry in *. rewrite Hm.
    cbn [mirrorer messages with_state state State_Mirrors set_mirrors].
    split; [done|]. rewrite Hmm in Hrec. cbn [from_option id] in *.
    rewrite lookup_insert_ne; [done|]. intros ->. congruence.
Qed.

(** The iterations of the event loop are a run. *)
Lemma eventLoop_run envs : ∀ W W',
  eventLoop envs W = Some (Return W') → later_in_run W W'.
Proof.
  induction envs as [|env envs IH]; intros W W'; cbn [eventLoop].
  - intros [= <-]. apply rtc_refl.
  - destruct (loopIter env W) as [[W1|msg]|] eqn:Hiter; [|discriminate..].
    intros Hrest. eapply rtc_l; [|by apply IH]. by eapply step_loop.
Qed.

Lemma run_without_sender W W' name mirror :
  later_in_run W W' →
  (name ∉ senders W) →
  default ∅ (registry W) !! name = Some mirror →
  (name ∉ senders W') ∧ default ∅ (registry W') !! name = Some mirror.
Proof.
  intros Hrun. induction Hrun as [W|W W1 W' Hstep _ IH]; [done|].
  intros Hnone Hrec.
  destruct (step_without_sender _ _ _ _ Hstep Hnone Hrec) as [H1 H2]. by apply IH.
Qed.

(** C5: when the update of a [Ready] mirror returns an error, the iteration
    leaves the state as it was, saves nothing and starts no sender: it has
    run the git command and nothing else.  With one sender for each mirror,
    the mirror then has none, and for the rest of the run it gets none and
    its record stays as it is. *)
Theorem failed_refresh_drops_mirror (env : LoopEnv) (W W1 : World)
    (name err : string) :
  NoDup (senders W) →
  receive env W = Some (name, W1) →
  Mirror_State (map_index (registry W) name) = MirrorReady →
  (gitRemoteUpdate (loop_output env)
     (State_StoragePath (state (mirrorer W))) name).2 = Return (Some err) →
  ∃ W',
    loopIter env W = Some (Return W') ∧
    state (mirrorer W') = state (mirrorer W) ∧
    files W' = files W ∧
    trace W' = (trace W ++
                [EvRecv OwnerTask name;
                 EvGitRemoteUpdate
                   (filepath_Join (State_StoragePath (state (mirrorer W))) name)])%list ∧
    (name ∉ senders W') ∧
    ∀ W'', later_in_run W' W'' →
      (name ∉ senders W'') ∧
      default ∅ (registry W'') !! name = default ∅ (registry W) !! name.
Proof.
  intros Hnd Hrecv Hready Hfail.
  destruct (map_index_Ready _ _ Hready) as (mm & Hmm & Hlook).
  assert (default ∅ (registry W) !! name = Some (map_index (registry W) name))
    as Hrec by (rewrite Hmm in Hlook |- *; exact Hlook).
  pose proof Hrecv as Hrecv'.
  apply receive_inv in Hrecv' as (d & Hpick & _ & HW1).
  destruct (senders_delete _ _ _ _ Hpick) as (_ & Hdel & _).
  destruct (Hdel Hnd) as [Hgone _].
  unfold loopIter. rewrite Hrecv.
  assert (registry W1 = registry W) as Hreg by (by subst W1).
  assert (state (mirrorer W1) = state (mirrorer W)) as Hst by (by subst W1).
  unfold handleMessage. fold (registry W1). rewrite Hreg, Hst.
  destruct (decide (Mirror_State (map_index (registry W) name) = MirrorReady));
    [|done].
  unfold gitRemoteUpdate in *.
  destruct (loop_output env) as [[text stderr|text]|]; cbn [snd] in Hfail;
    [|discriminate..].
  cbn [bindR]. eexists. split; [reflexivity|].
  cbn [mirrorer files trace]. subst W1.
  cbn [mirrorer files trace with_messages state].
  split; [done|]. split; [done|]. split; [by rewrite <- app_assoc|].
  split; [exact Hgone|].
  intros W'' Hrun. rewrite Hrec.
  eapply run_without_sender; [exact Hrun|exact Hgone|exact Hrec].
Qed.

(** ** The schedule *)

Lemma timer_ok_same W W' t :
  registry W' = registry W →
  State_UpdateDelta (state (mirrorer W')) = State_UpdateDelta (state (mirrorer W)) →
  timer_ok W t → timer_ok W' t.
Proof. unfold timer_ok. by intros -> ->. Qed.

Lemma timer_ok_insert W W' mm n0 mi t :
  registry W = Some mm →
  registry W' = Some (<[n0 := mi]> mm) →
  State_UpdateDelta (state (mirrorer W')) = State_UpdateDelta (state (mirrorer W)) →
  t.1 ≠ n0 →
  timer_ok W t → timer_ok W' t.
Proof.
  unfold timer_ok. intros -> -> -> Hne (mirror & Hlook & Hrest).
  exists mirror. split; [|done]. cbn [from_option id] in *.
  by rewrite lookup_insert_ne.
Qed.

Lemma armOne_sched_inv W name :
  sched_inv W → (name ∉ senders W) →
  sched_inv (armOne W name) ∧
  state (mirrorer (armOne W name)) = state (mirrorer W) ∧
  (∀ k, k ∈ senders (armOne W name) → k = name ∨ k ∈ senders W).
Proof.
  clear time_MarshalJSON time_UnmarshalJSON.
  intros [Hnd Hok] Hnew. unfold armOne. fold (registry W).
  destruct (default ∅ (registry W) !! name) as [mirror|] eqn:Hlook;
    [|by repeat split; auto].
  destruct (decide (Mirror_State mirror = MirrorReady)) as [Hready|];
    [|by repeat split; auto].
  unfold arm, sched_inv, senders. cbn [mirrorer messages with_messages state].
  rewrite fmap_app. cbn [fmap list_fmap fst]. repeat split.
  - apply NoDup_app. repeat split; [done| |apply NoDup_singleton].
    intros k Hk ->%list_elem_of_singleton. by apply Hnew.
  - apply Forall_app. split.
    + eapply Forall_impl; [exact Hok|]. intros t. by apply timer_ok_same.
    + apply Forall_singleton. exists mirror. by repeat split.
  - intros k. rewrite elem_of_app, list_elem_of_singleton. tauto.
Qed.

(** The second loop of [Run] leaves one sender for each [Ready] mirror it
    visits, waiting for the last update plus the interval. *)
Lemma armAll_sched_inv order : ∀ W,
  sched_inv W → NoDup order → (∀ k, k ∈ order → k ∉ senders W) →
  sched_inv (armAll W order).
Proof.
  induction order as [|name order IH]; intros W Hinv Hnd Hdisj; [done|].
  apply NoDup_cons in Hnd as [Hname Hnd].
  destruct (armOne_sched_inv W name Hinv) as (Hinv' & _ & Hsub).
  { apply Hdisj. by left. }
  cbn [armAll foldl]. apply IH; [done..|].
  intros k Hk Hin. apply Hsub in Hin as [->|Hin]; [done|].
  apply (Hdisj k); [by right|done].
Qed.

Lemma step_sched_inv W W' : step W W' → sched_inv W → sched_inv W'.
Proof.
  intros Hstep [Hnd Hok]. destruct Hstep as [env W W' Hloop|env q W resp W' Hadd].
  - unfold loopIter in Hloop.
    destruct (receive env W) as [[n0 W1]|] eqn:Hrecv; [|discriminate].
    injection Hloop as Hloop.
    apply receive_inv in Hrecv as (d & Hpick & _ & ->).
    destruct (senders_delete _ _ _ _ Hpick) as (_ & Hdel & Hsub).
    destruct (Hdel Hnd) as [Hgone Hnd'].
    assert (Forall (timer_ok W) (delete (loop_pick env) (messages (mirrorer W))))
      as Hok'.
    { apply Forall_forall. intros t Ht. eapply (proj1 (Forall_forall _ _) Hok).
      by apply Hsub. }
    apply handleMessage_effect in Hloop
      as [(Hm & _)|(mm & mi & Hmm & Hlook & Hready & _ & _ & Hm & _)].
    + unfold sched_inv, senders. rewrite Hm. cbn [mirrorer messages with_messages].
      split; [done|]. eapply Forall_impl; [exact Hok'|].
      intros t. apply timer_ok_same; unfold registry; by rewrite Hm.
    + unfold sched_inv, senders. rewrite Hm.
      cbn [mirrorer messages with_messages with_state].
      rewrite fmap_app. cbn [fmap list_fmap fst]. split.
      * apply NoDup_app. repeat split; [done| |apply NoDup_singleton].
        intros k Hk ->%list_elem_of_singleton. by apply Hgone.
      * apply Forall_app. split.
        -- apply Forall_forall. intros t Ht.
           eapply (timer_ok_insert W _ mm n0); [exact Hmm|unfold registry; by rewrite Hm|by rewrite Hm| |].
           ++ intros Heq. apply Hgone. rewrite <- Heq.
              apply list_elem_of_fmap. by exists t.
           ++ eapply (proj1 (Forall_forall _ _) Hok'). exact Ht.
        -- apply Forall_singleton. unfold timer_ok, registry. rewrite Hm.
           cbn [mirrorer with_messages with_state state set_mirrors State_Mirrors
                State_UpdateDelta from_option id fst snd].
           eexists. rewrite lookup_insert_eq. by repeat split.
  - apply AddMirrorHandler_effect in Hadd
      as [->|(mm & n0 & mi & Hmm & Hfresh & _ & Hm & _)]; [done|].
    unfold sched_inv, senders. rewrite Hm. cbn [mirrorer messages with_state].
    split; [done|]. apply Forall_forall. intros t Ht.
    pose proof (proj1 (Forall_forall _ _) Hok t Ht) as Ht'.
    eapply (timer_ok_insert W _ mm n0); [exact Hmm|unfold registry; by rewrite Hm|by rewrite Hm| |done].
    destruct Ht' as (mirror & Hlook & _). rewrite Hmm in Hlook.
    cbn [from_option id] in Hlook. intros Heq. congruence.
Qed.

Lemma run_sched_inv W W' : later_in_run W W' → sched_inv W → sched_inv W'.
Proof.
  intros Hrun. induction Hrun as [|W W1 W' Hstep _ IH]; [done|].
  intros Hinv. apply IH. by eapply step_sched_inv.
Qed.

Lemma handleMessage_refreshed env name W mm mirror :
  registry W = Some mm → mm !! name = Some mirror →
  Mirror_State mirror = MirrorReady →
  loop_output env = None →
  let now := clock W + Z.of_N (loop_elapsed env) in
  let mirror' := {| Mirror_Url := Mirror_Url mirror;
                    Mirror_LastUpdate := now;
                    Mirror_State := MirrorReady |} in
  let m' := with_state (set_mirrors (Some (<[name := mirror']> mm))
                          (state (mirrorer W))) (mirrorer W) in
  let next := now + State_UpdateDelta (state (mirrorer W)) in
  ∃ W', handleMessage env name W = Return W' ∧
        clock W' = now ∧
        mirrorer W' = with_messages (messages (mirrorer W) ++ [(name, next)]) m'.
Proof.
  intros Hmm Hlook Hready Hout. cbv zeta.
  unfold handleMessage. fold (registry W).
  assert (map_index (registry W) name = mirror) as ->.
  { apply map_index_present. by rewrite Hmm. }
  rewrite Hready. destruct (decide (MirrorReady = MirrorReady)); [|done].
  unfold gitRemoteUpdate. rewrite Hout, Hmm. cbn [bindR map_store].
  destruct (updateDb _ _ _) as [err fs']. eexists. split; [reflexivity|]. done.
Qed.

Lemma filter_other_names (name : string) (l : list (string * Time)) :
  (name ∉ fst <$> l) → filter (λ t, t.1 = name) l = [].
Proof.
  induction l as [|t l IH]; [done|]. rewrite fmap_cons, not_elem_of_cons.
  intros [Hne Hl]. rewrite filter_cons.
  destruct (decide (t.1 = name)) as [Heq|_]; [by rewrite Heq in Hne|by apply IH].
Qed.


(** ** The catch-up pass *)

(** Whatever the clone returns, the first loop of [Run] marks a [Fresh]
    mirror [Ready], stamps it and saves. *)
Lemma catchUpOne_marks_Ready W name env mm mirror (r : error) :
  registry W = Some mm → mm !! name = Some mirror →
  Mirror_State mirror = MirrorFresh →
  (gitCloneMirror (catch_clone env) (State_StoragePath (state (mirrorer W)))
     name (Mirror_Url mirror)).2 = Return r →
  ∃ W', catchUpOne W (name, env) = Return W' ∧
        default ∅ (registry W') !! name =
        Some {| Mirror_Url := Mirror_Url mirror;
                Mirror_LastUpdate := clock W + Z.of_N (catch_elapsed env);
                Mirror_State := MirrorReady |}.
Proof.
  intros Hmm Hlook Hfresh Hclone. unfold catchUpOne. fold (registry W).
  rewrite Hmm. cbn [from_option id]. rewrite Hlook.
  destruct (decide (Mirror_State mirror = MirrorFresh)); [|done].
  destruct (gitCloneMirror _ _ _ _) as [evs r']. cbn [snd] in Hclone. subst r'.
  cbn [bindR map_store]. destruct (updateDb _ _ _) as [err fs'].
  eexists. split; [reflexivity|]. unfold registry.
  cbn [mirrorer with_state state set_mirrors State_Mirrors from_option id].
  by rewrite lookup_insert_eq.
Qed.

Lemma catchUpOne_trace W v W' :
  catchUpOne W v = Return W' →
  ∃ evs, trace W' = (trace W ++ evs)%list ∧ Forall owner_event evs.
Proof.
  destruct v as [name env]. unfold catchUpOne.
  destruct (default ∅ _ !! name) as [mirror|];
    [|intros [= <-]; exists []; by rewrite app_nil_r].
  destruct (decide (Mirror_State mirror = MirrorFresh));
    [|intros [= <-]; exists []; by rewrite app_nil_r].
  destruct (gitCloneMirror _ _ _ _) as [evs r] eqn:Hclone.
  destruct r as [err|msg]; cbn [bindR]; [|discriminate].
  destruct (map_store _ _ _) as [mm|msg]; cbn [bindR]; [|discriminate].
  destruct (updateDb _ _ _) as [err' fs']. intros [= <-]. cbn [trace].
  eexists. split; [reflexivity|]. apply Forall_app. split.
  - unfold gitCloneMirror in Hclone.
    destruct (clone_removeAll _); [injection Hclone as <- _; by repeat constructor|].
    destruct (clone_output _) as [[? ?|?]|]; injection Hclone as <- _;
      by repeat constructor.
  - by repeat constructor.
Qed.

Lemma catchUp_trace visits : ∀ W W',
  catchUp W visits = Return W' →
  ∃ evs, trace W' = (trace W ++ evs)%list ∧ Forall owner_event evs.
Proof.
  induction visits as [|v visits IH]; intros W W'; cbn [catchUp].
  - intros [= <-]. exists []. by rewrite app_nil_r.
  - destruct (catchUpOne W v) as [W1|msg] eqn:H1; cbn [bindR]; [|discriminate].
    intros H2. apply catchUpOne_trace in H1 as (evs1 & Htr1 & Hevs1).
    apply IH in H2 as (evs2 & Htr2 & Hevs2).
    exists (evs1 ++ evs2)%list. split; [|by apply Forall_app].
    by rewrite Htr2, Htr1, app_assoc.
Qed.

(** C7, as the code has it: the owner task writes the registry in its
    catch-up pass, without a message, and in its event loop, for the name it
    has just received on the channel; an add-mirror request is not sent to
    the owner task: the handler stores the new mirror in the registry itself
    and saves, and starts no sender. *)
Theorem registry_writers :
  (∀ env W W', loopIter env W = Some (Return W') →
     ∃ name evs,
       trace W' = (trace W ++ EvRecv OwnerTask name :: evs)%list ∧
       Forall owner_event evs ∧
       ∀ t n mi, EvMapWrite t n mi ∈ evs → n = name) ∧
  (∀ visits W W', catchUp W visits = Return W' →
     ∃ evs, trace W' = (trace W ++ evs)%list ∧ Forall owner_event evs) ∧
  (∀ env q W resp W', AddMirrorHandler env q W = Return (resp, W') →
     messages (mirrorer W') = messages (mirrorer W) ∧
     (W' = W ∨
      ∃ mm name mirror,
        registry W = Some mm ∧
        registry W' = Some (<[name := mirror]> mm) ∧
        trace W' = (trace W ++ [EvMapWrite HandlerTask name mirror;
                                EvUpdateDb HandlerTask])%list)).
Proof.
  split; [|split].
  - intros env W W' Hloop. unfold loopIter in Hloop.
    destruct (receive env W) as [[name W1]|] eqn:Hrecv; [|discriminate].
    injection Hloop as Hloop. exists name.
    apply receive_inv in Hrecv as (d & _ & _ & ->).
    apply handleMessage_effect in Hloop
      as [(_ & _ & evs & -> & Hevs)|(mm & mi & _ & _ & _ & _ & _ & _ & _ & ->)];
      cbn [trace mirrorer with_messages state]; rewrite <- app_assoc;
      eexists; (split; [reflexivity|]).
    + destruct Hevs as [-> | ->]; split; try by repeat constructor.
      * intros t n m Hin. by apply elem_of_nil in Hin.
      * intros t n m Hin%list_elem_of_singleton. discriminate.
    + split; [by repeat constructor|]. intros t n m Hin.
      repeat (apply elem_of_cons in Hin as [Heq|Hin]; [try discriminate Heq|]).
      * by injection Heq as _ -> _.
      * by apply elem_of_nil in Hin.
  - apply catchUp_trace.
  - intros env q W resp W' Hadd.
    apply AddMirrorHandler_effect in Hadd
      as [->|(mm & name & mi & Hmm & _ & _ & Hm & _ & Htr)]; [by split; [|left]|].
    split; [by rewrite Hm|]. right. exists mm, name, mi.
    unfold registry in *. rewrite Hm. by repeat split.
Qed.

(** ** Requests with missing arguments *)

Lemma filter_missing (q : Values) (args : list string) :
  filter (λ arg, Values_Has q arg = false) args = filter (λ arg, q !! arg = None) args.
Proof.
  apply list_filter_iff. intros arg. unfold Values_Has.
  rewrite bool_decide_eq_false. by rewrite eq_None_not_Some.
Qed.

Lemma checkArgs_accepts (w : Response) (q : Values) (args : list string) :
  Forall (λ arg, is_Some (q !! arg)) args → checkArgs w q args = (w, true).
Proof.
  intros Hall. unfold checkArgs. rewrite filter_missing.
  destruct (filter (λ arg, q !! arg = None) args) as [|a missing] eqn:Hmiss; [done|].
  assert (a ∈ filter (λ arg, q !! arg = None) args) as Hin
    by (rewrite Hmiss; by left).
  apply list_elem_of_filter in Hin as [Hnone Hin].
  pose proof (proj1 (Forall_forall _ _) Hall a Hin) as [x Hx]. congruence.
Qed.

Lemma checkArgs_refuses (w : Response) (q : Values) (args : list string) :
  ¬ Forall (λ arg, is_Some (q !! arg)) args →
  checkArgs w q args =
  (http_Error w ("missing arguments: " +:+
                 strings_Join (filter (λ arg, q !! arg = None) args) ", ") 500,
   false).
Proof.
  intros Hnot. unfold checkArgs. rewrite filter_missing.
  destruct (filter (λ arg, q !! arg = None) args) as [|a missing] eqn:Hmiss; [|done].
  destruct Hnot. apply Forall_forall. intros arg Harg.
  destruct (q !! arg) eqn:Hq; [by eexists|].
  assert (arg ∈ filter (λ arg, q !! arg = None) args) as Hin
    by (by apply list_elem_of_filter).
  rewrite Hmiss in Hin. by apply elem_of_nil in Hin.
Qed.

(** X1: [checkArgs] accepts a query exactly when it has every argument
    asked for, and then leaves the response alone; otherwise it answers 500
    (on a response not yet started) with the missing arguments, in the order
    they were asked for. *)
Theorem checkArgs_missing (w : Response) (q : Values) (args : list string) :
  ((checkArgs w q args).2 = true ↔ Forall (λ arg, is_Some (q !! arg)) args) ∧
  ((checkArgs w q args).2 = true → (checkArgs w q args).1 = w) ∧
  ((checkArgs w q args).2 = false →
   status (checkArgs w q args).1 = Some (default 500 (status w)) ∧
   body (checkArgs w q args).1 =
     body w +:+ ("missing arguments: " +:+
                 strings_Join (filter (λ arg, q !! arg = None) args) ", ") +:+ nl).
Proof.
  destruct (decide (Forall (λ arg, is_Some (q !! arg)) args)) as [Hall|Hnot].
  - rewrite (checkArgs_accepts w q args Hall). by repeat split.
  - rewrite (checkArgs_refuses w q args Hnot). cbn [fst snd].
    split; [|by split]. by split.
Qed.

(** X2: a request to add a mirror without a name or without a url is
    answered 500 with the missing arguments, and changes nothing: the world
    is as it was, whatever the registry holds, even a nil map. *)
Theorem AddMirrorHandler_missing_args (env : HandlerEnv) (q : Values) (W : World) :
  q !! "name" = None ∨ q !! "url" = None →
  ∃ resp,
    AddMirrorHandler env q W = Return (resp, W) ∧
    status resp = Some 500 ∧
    body resp =
      ("missing arguments: " +:+
       strings_Join (filter (λ arg, q !! arg = None) ["name"; "url"]) ", ") +:+ nl.
Proof.
  intros Hmiss. unfold AddMirrorHandler.
  rewrite checkArgs_refuses.
  - cbn [negb]. eexists. split; [reflexivity|]. by split.
  - intros Hall. apply Forall_cons in Hall as [[x Hx] Hall].
    apply Forall_cons in Hall as [[y Hy] _].
    destruct Hmiss; congruence.
Qed.

(** ** Saves that fail *)

Lemma updateDb_fails io m fs :
  is_Some (save_create io) ∨ is_Some (save_write io) ∨
  is_Some (save_close io) ∨ is_Some (save_rename io) →
  is_Some (updateDb io m fs).1.
Proof.
  intros Hfail. unfold updateDb, save_steps.
  set (tmp := tempName (filepath_Dir (dbPath m)) (save_rnd io)).
  rewrite !run_steps_cons, run_steps_nil.
  unfold save_step_create.
  destruct (save_create io) as [e|] eqn:Hc; [by eexists|].
  destruct (fs !! tmp); [by eexists|]. cbn [fst snd].
  unfold save_step_encode.
  destruct (encodeState (state m)) as [doc|] eqn:He; [|by eexists].
  destruct (save_write io) as [e|] eqn:Hw; [by eexists|]. cbn [fst snd].
  unfold save_step_close.
  destruct (save_close io) as [e|] eqn:Hcl; [by eexists|]. cbn [fst snd].
  unfold save_step_rename.
  destruct (save_rename io) as [e|] eqn:Hr; [by eexists|].
  destruct Hfail as [[? [=]]|[[? [=]]|[[? [=]]|[? [=]]]]].
Qed.

(** X3: when the save of a new mirror fails, the request is answered 500
    with the error of the save, but the mirror stays in the registry: the
    store is not undone.  The snapshot file is as it was, so that memory and
    disk differ until the next save that succeeds, and a restart before it
    loses the mirror. *)
Theorem AddMirrorHandler_save_failed (env : HandlerEnv) (q : Values) (W : World)
    (mm : gmap string Mirror) :
  Values_Has q "name" = true →
  Values_Has q "url" = true →
  registry W = Some mm →
  mm !! Values_Get q "name" = None →
  is_Some (save_create (handler_save env)) ∨ is_Some (save_write (handler_save env)) ∨
  is_Some (save_close (handler_save env)) ∨ is_Some (save_rename (handler_save env)) →
  is_Some (files W !! dbPath (mirrorer W)) →
  ∃ resp W' e,
    AddMirrorHandler env q W = Return (resp, W') ∧
    status resp = Some 500 ∧
    body resp = ("failed to update db: " +:+ e) +:+ nl ∧
    registry W' =
      Some (<[Values_Get q "name" :=
                {| Mirror_Url := Values_Get q "url";
                   Mirror_LastUpdate := clock W + Z.of_N (handler_elapsed env);
                   Mirror_State := MirrorFresh |}]> mm) ∧
    files W' !! dbPath (mirrorer W') = files W !! dbPath (mirrorer W) ∧
    loadState (dbPath (mirrorer W')) (files W') = loadState (dbPath (mirrorer W)) (files W).
Proof.
  intros Hn Hu Hmm Hfresh Hfail Htarget. unfold AddMirrorHandler.
  rewrite (checkArgs_present _ _ Hn Hu). cbn [negb].
  unfold registry in Hmm.
  assert (map_has (State_Mirrors (state (mirrorer W))) (Values_Get q "name") = false)
    as -> by (apply map_has_false; by rewrite Hmm).
  rewrite Hmm. cbn [map_store bindR].
  set (m' := with_state _ (mirrorer W)).
  pose proof (updateDb_fails (handler_save env) m' (files W) Hfail) as [e He].
  destruct (updateDb (handler_save env) m' (files W)) as [err fs'] eqn:Hsave.
  cbn [fst] in He. subst err.
  assert (fs' !! dbPath (mirrorer W) = files W !! dbPath (mirrorer W)) as Hsame.
  { apply (updateDb_upto_target (handler_save env) m' (files W) 4 (Some e) fs').
    - exact Htarget.
    - by rewrite updateDb_upto_all.
    - right. by eexists. }
  eexists _, _, e. split; [reflexivity|].
  cbn [status body newResponse http_Error registry mirrorer files dbPath with_state
       state set_mirrors State_Mirrors].
  change (dbPath m') with (dbPath (mirrorer W)).
  split; [done|]. split; [done|]. split; [done|]. split; [done|].
  unfold loadState. by rewrite Hsame.
Qed.

(** X4: a save touches two paths only, the temporary file and the target.
    After a save that succeeds the temporary file is gone (it has become the
    target); a save that fails after it has created the temporary file
    leaves that file behind. *)
Theorem updateDb_frame (io : SaveIO) (m : Mirrorer) (fs fs' : FS) (e : error) :
  updateDb io m fs = (e, fs') →
  let tmp := tempName (filepath_Dir (dbPath m)) (save_rnd io) in
  (∀ p, p ≠ tmp → p ≠ dbPath m → fs' !! p = fs !! p) ∧
  (e = None → tmp ≠ dbPath m → fs' !! tmp = None) ∧
  (is_Some e → save_create io = None → fs !! tmp = None → is_Some (fs' !! tmp)).
Proof.
  intros H tmp. unfold updateDb, save_steps in H. fold tmp in H.
  rewrite !run_steps_cons, run_steps_nil in H.
  unfold save_step_create in H.
  destruct (save_create io) as [ec|]; cbn [fst snd] in H.
  { injection H as <- <-. split; [done|]. split; [done|]. done. }
  destruct (fs !! tmp) as [c|] eqn:Htmp; cbn [fst snd] in H.
  { injection H as <- <-. split; [done|]. split; [done|]. done. }
  unfold save_step_encode in H.
  destruct (encodeState (state m)) as [doc|]; cbn [fst snd] in H.
  2:{ injection H as <- <-. split; [|split; [done|]].
      - intros p Hp _. by rewrite lookup_insert_ne.
      - intros _ _ _. rewrite lookup_insert_eq. by eexists. }
  destruct (save_write io) as [ew|]; cbn [fst snd] in H.
  { injection H as <- <-. split; [|split; [done|]].
    - intros p Hp _. by rewrite !lookup_insert_ne.
    - intros _ _ _. rewrite lookup_insert_eq. by eexists. }
  unfold save_step_close in H.
  destruct (save_close io) as [ecl|]; cbn [fst snd] in H.
  { injection H as <- <-. split; [|split; [done|]].
    - intros p Hp _. by rewrite !lookup_insert_ne.
    - intros _ _ _. rewrite lookup_insert_eq. by eexists. }
  unfold save_step_rename in H.
  destruct (save_rename io) as [er|]; cbn [fst snd] in H.
  { injection H as <- <-. split; [|split; [done|]].
    - intros p Hp _. by rewrite !lookup_insert_ne.
    - intros _ _ _. rewrite lookup_insert_eq. by eexists. }
  rewrite lookup_insert_eq in H. cbn [fst snd] in H. injection H as <- <-.
  split; [|split].
  - intros p Hp Hq. rewrite lookup_insert_ne by done.
    rewrite lookup_delete_ne by done. by rewrite !lookup_insert_ne.
  - intros _ Hne. rewrite lookup_insert_ne by done. by rewrite lookup_delete_eq.
  - by intros [? [=]].
Qed.

(** ** The git commands *)

(** X5: [gitCloneMirror] returns no error exactly when the directory was
    cleared and the clone succeeded; when the directory cannot be cleared it
    returns an error without running git; and it panics exactly when git
    fails with an error that is not an exit status.  [gitRemoteUpdate]
    returns no error exactly when the command succeeded, and panics on the
    same kind of error. *)
Theorem git_command_results (env : CloneEnv) (output : option CmdErr)
    (storagePath mirrorName mirrorUrl : string) :
  let clone := gitCloneMirror env storagePath mirrorName mirrorUrl in
  let update := gitRemoteUpdate output storagePath mirrorName in
  (clone.2 = Return None ↔ clone_removeAll env = None ∧ clone_output env = None) ∧
  (∀ err, clone_removeAll env = Some err →
     clone = ([EvRemoveAll (filepath_Join storagePath mirrorName)],
              Return (Some ("failed to clean target dir: " +:+ err)))) ∧
  ((∃ msg, clone.2 = Panic msg) ↔
   clone_removeAll env = None ∧ ∃ text, clone_output env = Some (OtherError text)) ∧
  (update.2 = Return None ↔ output = None) ∧
  ((∃ msg, update.2 = Panic msg) ↔ ∃ text, output = Some (OtherError text)) ∧
  update.1 = [EvGitRemoteUpdate (filepath_Join storagePath mirrorName)].
Proof.
  cbv zeta. unfold gitCloneMirror, gitRemoteUpdate.
  split; [|split; [|split; [|split; [|split]]]].
  - destruct (clone_removeAll env); [by split; [|intros [? ?]]|].
    destruct (clone_output env) as [[? ?|?]|]; cbn [snd];
      (split; [try done|by intros [? ?]]).
  - by intros err ->.
  - destruct (clone_removeAll env).
    { split; [by intros [? ?]|by intros [? ?]]. }
    destruct (clone_output env) as [[? ?|text]|]; cbn [snd].
    + split; [by intros [? ?]|by intros [_ [? ?]]].
    + split; [eauto|eauto].
    + split; [by intros [? ?]|by intros [_ [? ?]]].
  - destruct output as [[? ?|?]|]; cbn [snd]; by split.
  - destruct output as [[? ?|text]|]; cbn [snd].
    + split; by intros [? ?].
    + split; eauto.
    + split; by intros [? ?].
  - by destruct output as [[? ?|?]|].
Qed.

(** ** Start-up *)

(** X6: [NewMirrorer] returns an error exactly when the path is not valid,
    the file is missing, or its content does not decode; it has then
    touched no file.  When it returns a mirrorer, that mirrorer has the
    path, the state read from the file and no sender. *)
Theorem NewMirrorer_errors (io : SaveIO) (path : string) (fs : FS) :
  ((∃ err, (NewMirrorer io path fs).1 = inr err) ↔
   fs_ValidPath path = false ∨ fs !! path = None ∨
   ∃ c, fs !! path = Some c ∧ c ≫= decode_State NewState = None) ∧
  (∀ err, (NewMirrorer io path fs).1 = inr err → (NewMirrorer io path fs).2 = fs) ∧
  (∀ m, (NewMirrorer io path fs).1 = inl m →
     fs_ValidPath path = true ∧ dbPath m = path ∧ messages m = [] ∧
     loadState path fs = inl (state m) ∧
     (NewMirrorer io path fs).2 = (updateDb io m fs).2).
Proof.
  unfold NewMirrorer, loadState.
  destruct (fs_ValidPath path) eqn:Hvalid; cbn [negb fst snd].
  2:{ split; [|split; [done|done]]. split; [by left|eauto]. }
  destruct (fs !! path) as [c|] eqn:Hfile.
  2:{ split; [|split; [done|done]]. split; [by right; left|eauto]. }
  destruct (c ≫= decode_State NewState) as [s|] eqn:Hdec; cbn [fst snd].
  - split; [|split; [done|]].
    + split; [by intros [? ?]|].
      intros [?|[?|(c' & [= <-] & Hc')]]; [done..|congruence].
    + intros m [= <-]. done.
  - split; [|split; [done|done]]. split; [|eauto].
    intros _. right. right. by exists c.
Qed.

(** ** What a run keeps *)

Lemma Ready_not_Fresh : MirrorReady ≠ MirrorFresh.
Proof. discriminate. Qed.

Lemma step_keeps W W' :
  step W W' →
  dbPath (mirrorer W') = dbPath (mirrorer W) ∧
  State_StoragePath (state (mirrorer W')) = State_StoragePath (state (mirrorer W)) ∧
  State_UpdateDelta (state (mirrorer W')) = State_UpdateDelta (state (mirrorer W)) ∧
  ∀ k mi, default ∅ (registry W) !! k = Some mi →
    ∃ mi', default ∅ (registry W') !! k = Some mi' ∧
           Mirror_Url mi' = Mirror_Url mi ∧ Mirror_State mi' = Mirror_State mi.
Proof.
  intros Hstep. destruct Hstep as [env W W' Hloop|env q W resp W' Hadd].
  - unfold loopIter in Hloop.
    destruct (receive env W) as [[n0 W1]|] eqn:Hrecv; [|discriminate].
    injection Hloop as Hloop.
    apply receive_inv in Hrecv as (d & _ & _ & ->).
    apply handleMessage_effect in Hloop
      as [(Hm & _)|(mm & mirror & Hmm & Hlook & Hready & _ & _ & Hm & _)].
    + unfold registry. rewrite Hm. cbn [mirrorer with_messages dbPath state].
      repeat split. eauto.
    + unfold registry in *. rewrite Hm.
      cbn [mirrorer with_messages with_state dbPath state set_mirrors
           State_StoragePath State_UpdateDelta State_Mirrors from_option id] in *.
      repeat split. intros k mi Hk. rewrite Hmm in Hk. cbn [from_option id] in Hk.
      destruct (decide (k = n0)) as [->|Hne].
      * rewrite lookup_insert_eq. eexists. split; [done|].
        assert (mi = mirror) as -> by congruence. by rewrite Hready.
      * rewrite lookup_insert_ne by done. eauto.
  - apply AddMirrorHandler_effect in Hadd
      as [->|(mm & n0 & mirror & Hmm & Hfresh & _ & Hm & _)]; [by repeat split; eauto|].
    unfold registry in *. rewrite Hm.
    cbn [with_state dbPath state set_mirrors
         State_StoragePath State_UpdateDelta State_Mirrors from_option id].
    repeat split. intros k mi Hk. rewrite Hmm in Hk. cbn [from_option id] in Hk.
    rewrite lookup_insert_ne by congruence. eauto.
Qed.



(** ** What a run does *)

Lemma saved_after_write_app (a b : list Event) :
  saved_after_write a → saved_after_write b → saved_after_write (a ++ b).
Proof.
  clear time_MarshalJSON time_UnmarshalJSON.
  intros Ha Hb. induction a as [|ev a IH]; [done|].
  destruct ev; cbn [app saved_after_write] in *; try by apply IH.
  destruct Ha as [(rest' & ->) Ha]. split; [by eexists|by apply IH].
Qed.

Lemma step_trace W W' :
  step W W' →
  ∃ evs, trace W' = (trace W ++ evs)%list ∧
         Forall (λ ev, ¬ clone_event ev) evs ∧ saved_after_write evs.
Proof.
  intros Hstep. destruct Hstep as [env W W' Hloop|env q W resp W' Hadd].
  - unfold loopIter in Hloop.
    destruct (receive env W) as [[n0 W1]|] eqn:Hrecv; [|discriminate].
    injection Hloop as Hloop.
    apply receive_inv in Hrecv as (d & _ & _ & ->).
    apply handleMessage_effect in Hloop
      as [(_ & _ & evs & -> & Hevs)|(mm & mi & _ & _ & _ & _ & _ & _ & _ & ->)];
      cbn [trace mirrorer with_messages state]; rewrite <- app_assoc;
      eexists; (split; [reflexivity|]).
    + destruct Hevs as [-> | ->]; split; by repeat constructor; auto.
    + split; [by repeat constructor; auto|]. cbn. eauto.
  - apply AddMirrorHandler_effect in Hadd
      as [->|(mm & name & mi & _ & _ & _ & _ & _ & ->)].
    + exists []. by rewrite app_nil_r.
    + eexists. split; [reflexivity|]. split; [by repeat constructor; auto|].
      cbn. eauto.
Qed.

(** X9: once [Run] is in its event loop, no directory is cleared and no
    clone is run any more, neither by the loop nor by a request: the trace
    only grows, and by none of these events. *)
Theorem run_never_clones (W W' : World) :
  later_in_run W W' →
  ∃ evs, trace W' = (trace W ++ evs)%list ∧ Forall (λ ev, ¬ clone_event ev) evs.
Proof.
  intros Hrun. induction Hrun as [W|W W1 W' Hstep _ IH].
  - exists []. by rewrite app_nil_r.
  - destruct (step_trace _ _ Hstep) as (evs1 & Htr1 & Hevs1 & _).
    destruct IH as (evs2 & Htr2 & Hevs2).
    exists (evs1 ++ evs2)%list. split; [|by apply Forall_app].
    by rewrite Htr2, Htr1, app_assoc.
Qed.

Lemma run_saved_after_write W W' :
  later_in_run W W' → saved_after_write (trace W) → saved_after_write (trace W').
Proof.
  intros Hrun. induction Hrun as [W|W W1 W' Hstep _ IH]; [done|].
  intros Hsaved. apply IH.
  destruct (step_trace _ _ Hstep) as (evs1 & -> & _ & Hevs1).
  by apply saved_after_write_app.
Qed.

(** ** The second loop of [Run] *)

Lemma armAll_effect order : ∀ W,
  state (mirrorer (armAll W order)) = state (mirrorer W) ∧
  dbPath (mirrorer (armAll W order)) = dbPath (mirrorer W) ∧
  files (armAll W order) = files W ∧
  clock (armAll W order) = clock W ∧
  messages (mirrorer (armAll W order)) = (messages (mirrorer W) ++ omap (armed W) order)%list ∧
  trace (armAll W order) =
    (trace W ++ ((λ t, EvGo t.1 t.2) <$> omap (armed W) order))%list.
Proof.
  clear time_MarshalJSON time_UnmarshalJSON.
  induction order as [|name order IH]; intros W.
  - cbn. by rewrite !app_nil_r.
  - cbn [armAll foldl]. fold (armAll (armOne W name) order).
    destruct (IH (armOne W name)) as (Hs & Hp & Hf & Hc & Hm & Ht).
    assert (state (mirrorer (armOne W name)) = state (mirrorer W)) as Hs1.
    { unfold armOne. destruct (_ !! name) as [mirror|]; [|done].
      by destruct (decide (Mirror_State mirror = MirrorReady)). }
    assert (∀ k, armed (armOne W name) k = armed W k) as Harmed.
    { intros k. unfold armed. by rewrite Hs1. }
    assert (omap (armed (armOne W name)) order = omap (armed W) order) as Hom.
    { apply list_omap_ext, Forall_Forall2_diag, Forall_forall.
      intros k _. apply Harmed. }
    rewrite Hs, Hp, Hf, Hc, Hm, Ht, Hs1, Hom.
    assert (omap (armed W) (name :: order) =
            match armed W name with
            | Some t => t :: omap (armed W) order
            | None => omap (armed W) order
            end) as -> by reflexivity.
    destruct (default ∅ (State_Mirrors (state (mirrorer W))) !! name) as [mirror|]
      eqn:Hlook.
    2:{ assert (armed W name = None) as -> by (unfold armed; by rewrite Hlook).
        assert (armOne W name = W) as -> by (unfold armOne; by rewrite Hlook).
        done. }
    destruct (decide (Mirror_State mirror = MirrorReady)) as [Hready|Hnot].
    2:{ assert (armed W name = None) as ->.
        { unfold armed. rewrite Hlook. cbn [mbind option_bind].
          by destruct (decide (Mirror_State mirror = MirrorReady)). }
        assert (armOne W name = W) as ->.
        { unfold armOne. rewrite Hlook.
          by destruct (decide (Mirror_State mirror = MirrorReady)). }
        done. }
    assert (armed W name =
            Some (name, Time_Add (Mirror_LastUpdate mirror)
                          (State_UpdateDelta (state (mirrorer W))))) as ->.
    { unfold armed. rewrite Hlook. cbn [mbind option_bind].
      by destruct (decide (Mirror_State mirror = MirrorReady)). }
    assert (armOne W name =
            arm name (Time_Add (Mirror_LastUpdate mirror)
                        (State_UpdateDelta (state (mirrorer W)))) W) as ->.
    { unfold armOne. rewrite Hlook.
      by destruct (decide (Mirror_State mirror = MirrorReady)). }
    cbn [arm mirrorer with_messages state dbPath files clock messages trace
         fmap list_fmap fst snd].
    by rewrite <- !app_assoc.
Qed.

Lemma elem_of_armed (W : World) (order : list string) (k : string) (d : Time) :
  (k, d) ∈ omap (armed W) order ↔
  k ∈ order ∧ ∃ mi, default ∅ (registry W) !! k = Some mi ∧
                    Mirror_State mi = MirrorReady ∧
                    d = Mirror_LastUpdate mi + State_UpdateDelta (state (mirrorer W)).
Proof.
  clear time_MarshalJSON time_UnmarshalJSON.
  rewrite list_elem_of_omap. unfold armed. fold (registry W). split.
  - intros (name & Hin & Harmed).
    destruct (default ∅ (registry W) !! name) as [mi|] eqn:Hlook;
      cbn [mbind option_bind] in Harmed; [|done].
    destruct (decide (Mirror_State mi = MirrorReady)); [|done].
    injection Harmed as <- <-. eauto.
  - intros (Hin & mi & Hlook & Hready & ->). exists k. split; [done|].
    rewrite Hlook. cbn [mbind option_bind].
    by destruct (decide (Mirror_State mi = MirrorReady)).
Qed.

(** X10: the second loop of [Run] starts a sender for the names it visits
    whose mirror is [Ready], each waiting for the last update of its mirror
    plus the interval, and for no other name; it changes nothing else. *)
Theorem armAll_senders (W : World) (order : list string) :
  (∀ k, k ∈ senders (armAll W order) ↔
        k ∈ senders W ∨
        (k ∈ order ∧ ∃ mi, default ∅ (registry W) !! k = Some mi ∧
                           Mirror_State mi = MirrorReady)) ∧
  (∀ k d, (k, d) ∈ messages (mirrorer (armAll W order)) →
          (k, d) ∈ messages (mirrorer W) ∨
          ∃ mi, default ∅ (registry W) !! k = Some mi ∧
                d = Mirror_LastUpdate mi + State_UpdateDelta (state (mirrorer W))) ∧
  state (mirrorer (armAll W order)) = state (mirrorer W) ∧
  files (armAll W order) = files W ∧
  clock (armAll W order) = clock W.
Proof.
  destruct (armAll_effect order W) as (Hs & _ & Hf & Hc & Hm & _).
  split; [|split; [|done]].
  - intros k. unfold senders. rewrite Hm, fmap_app, elem_of_app.
    apply or_iff_compat_l. rewrite list_elem_of_fmap. split.
    + intros ([n d] & -> & (Hin & mi & Hlook & Hready & _)%elem_of_armed).
      cbn [fst]. eauto.
    + intros (Hin & mi & Hlook & Hready). eexists (k, _). split; [done|].
      apply elem_of_armed. eauto.
  - intros k d. rewrite Hm, elem_of_app.
    intros [Hin|(Hin & mi & Hlook & _ & ->)%elem_of_armed]; [by left|right]. eauto.
Qed.

(** X11: from the second loop of [Run] on, at every point of the run each
    mirror has at most one sender, and each sender belongs to a mirror that
    is in the registry and [Ready], and waits for the last update of that
    mirror plus the interval. *)
Theorem schedule_invariant (W0 W : World) (order : list string) :
  messages (mirrorer W0) = [] →
  NoDup order →
  later_in_run (armAll W0 order) W →
  NoDup (senders W) ∧
  ∀ k d, (k, d) ∈ messages (mirrorer W) →
    ∃ mi, default ∅ (registry W) !! k = Some mi ∧
          Mirror_State mi = MirrorReady ∧
          d = Mirror_LastUpdate mi + State_UpdateDelta (state (mirrorer W)).
Proof.
  intros Hempty Hnd Hrun.
  assert (sched_inv W) as [HndW Hok].
  { eapply run_sched_inv; [exact Hrun|]. apply armAll_sched_inv; [|done|].
    - unfold sched_inv, senders. rewrite Hempty. split; constructor.
    - intros n _. unfold senders. rewrite Hempty. apply not_elem_of_nil. }
  split; [done|]. intros k d Hin.
  exact (proj1 (Forall_forall _ _) Hok _ Hin).
Qed.

(** ** The first loop of [Run] *)

Lemma gitCloneMirror_events env storagePath name url :
  saved_after_write (gitCloneMirror env storagePath name url).1.
Proof.
  unfold gitCloneMirror. destruct (clone_removeAll env); [done|].
  by destruct (clone_output env) as [[? ?|?]|].
Qed.

Lemma catchUpOne_effect W name env W' :
  catchUpOne W (name, env) = Return W' →
  (W' = W ∧
   ∀ mi, default ∅ (registry W) !! name = Some mi → Mirror_State mi ≠ MirrorFresh) ∨
  (∃ mm mirror,
     registry W = Some mm ∧ mm !! name = Some mirror ∧
     Mirror_State mirror = MirrorFresh ∧
     let now := clock W + Z.of_N (catch_elapsed env) in
     let mirror' := {| Mirror_Url := Mirror_Url mirror;
                       Mirror_LastUpdate := now;
                       Mirror_State := MirrorReady |} in
     let m' := with_state (set_mirrors (Some (<[name := mirror']> mm))
                             (state (mirrorer W))) (mirrorer W) in
     mirrorer W' = m' ∧
     clock W' = now ∧
     files W' = (updateDb (catch_save env) m' (files W)).2 ∧
     trace W' =
       (trace W ++
        (gitCloneMirror (catch_clone env) (State_StoragePath (state (mirrorer W)))
           name (Mirror_Url mirror)).1 ++
        [EvMapWrite OwnerTask name mirror'; EvUpdateDb OwnerTask])%list).
Proof.
  unfold catchUpOne. fold (registry W).
  destruct (default ∅ (registry W) !! name) as [mirror|] eqn:Hlook;
    [|intros [= <-]; by left].
  destruct (decide (Mirror_State mirror = MirrorFresh)) as [Hfresh|Hnot].
  2:{ intros [= <-]. left. split; [done|]. by intros mi [= <-]. }
  destruct (gitCloneMirror _ _ _ _) as [evs r] eqn:Hclone.
  destruct r as [err|msg]; cbn [bindR]; [|discriminate].
  unfold registry in *.
  destruct (State_Mirrors (state (mirrorer W))) as [mm|] eqn:Hmm;
    cbn [map_store bindR from_option id] in *; [|by rewrite lookup_empty in Hlook].
  destruct (updateDb _ _ _) as [err' fs'] eqn:Hsave. intros [= <-].
  right. exists mm, mirror. cbv zeta. rewrite Hsave.
  cbn [fst snd mirrorer clock files trace].
  split; [done|]. split; [done|]. split; [done|]. split; [done|].
  split; [done|]. split; [done|]. by rewrite Hclone.
Qed.

Lemma catchUpOne_keeps W name env W' :
  catchUpOne W (name, env) = Return W' →
  messages (mirrorer W') = messages (mirrorer W) ∧
  dbPath (mirrorer W') = dbPath (mirrorer W) ∧
  State_StoragePath (state (mirrorer W')) = State_StoragePath (state (mirrorer W)) ∧
  State_UpdateDelta (state (mirrorer W')) = State_UpdateDelta (state (mirrorer W)) ∧
  (∀ k, default ∅ (registry W) !! k = None → default ∅ (registry W') !! k = None) ∧
  ∀ k mi, default ∅ (registry W) !! k = Some mi →
    ∃ mi', default ∅ (registry W') !! k = Some mi' ∧
           Mirror_Url mi' = Mirror_Url mi ∧
           (Mirror_State mi ≠ MirrorFresh ∨ k ≠ name → mi' = mi) ∧
           (Mirror_State mi = MirrorFresh → k = name → Mirror_State mi' = MirrorReady).
Proof.
  intros [[-> Hnot]|(mm & mirror & Hmm & Hlook & Hfresh & Hm & _)]%catchUpOne_effect.
  - repeat split; [done|]. intros k mi Hk. exists mi. repeat split; [done..|].
    intros Hf ->. by destruct (Hnot mi Hk).
  - unfold registry in *. rewrite Hm, Hmm.
    cbn [with_state messages dbPath state set_mirrors State_StoragePath
         State_UpdateDelta State_Mirrors from_option id].
    repeat split.
    + intros k Hk. rewrite lookup_insert_ne; [done|]. intros <-. congruence.
    + intros k mi Hk. destruct (decide (k = name)) as [->|Hne].
      * assert (mi = mirror) as -> by congruence.
        rewrite lookup_insert_eq. eexists. split; [done|]. split; [done|].
        split; [|done]. by intros [?|?].
      * rewrite lookup_insert_ne by done. exists mi. by repeat split.
Qed.

Lemma catchUp_keeps (visits : list (string * CatchEnv)) (W W' : World) :
  catchUp W visits = Return W' →
  messages (mirrorer W') = messages (mirrorer W) ∧
  dbPath (mirrorer W') = dbPath (mirrorer W) ∧
  State_StoragePath (state (mirrorer W')) = State_StoragePath (state (mirrorer W)) ∧
  State_UpdateDelta (state (mirrorer W')) = State_UpdateDelta (state (mirrorer W)) ∧
  (∀ k, default ∅ (registry W) !! k = None → default ∅ (registry W') !! k = None) ∧
  ∀ k mi, default ∅ (registry W) !! k = Some mi →
    ∃ mi', default ∅ (registry W') !! k = Some mi' ∧
           Mirror_Url mi' = Mirror_Url mi ∧
           (Mirror_State mi ≠ MirrorFresh ∨ k ∉ visits.*1 → mi' = mi) ∧
           (Mirror_State mi = MirrorFresh → k ∈ visits.*1 →
            Mirror_State mi' = MirrorReady).
Proof.
  revert W. induction visits as [|[name env] visits IH]; intros W; cbn [catchUp].
  - intros [= <-]. repeat split; [done|]. intros k mi Hk. exists mi.
    repeat split; [done..|]. by intros _ Hin%elem_of_nil.
  - destruct (catchUpOne W (name, env)) as [W1|msg] eqn:H1; cbn [bindR]; [|discriminate].
    intros H2. apply catchUpOne_keeps in H1 as (Hm1 & Hp1 & Hs1 & Hd1 & Hn1 & Hk1).
    apply IH in H2 as (Hm2 & Hp2 & Hs2 & Hd2 & Hn2 & Hk2).
    split; [congruence|]. split; [congruence|]. split; [congruence|].
    split; [congruence|]. split; [by auto|].
    intros k mi Hk. destruct (Hk1 k mi Hk) as (mi1 & Hlook1 & Hu1 & Hsame1 & Hready1).
    destruct (Hk2 k mi1 Hlook1) as (mi' & Hlook' & Hu' & Hsame' & Hready').
    exists mi'. split; [done|]. split; [congruence|].
    rewrite fmap_cons. cbn [fst]. split.
    + intros Hcase. assert (mi1 = mi) as ->.
      { apply Hsame1. destruct Hcase as [?|Hout]; [by left|right].
        intros ->. apply Hout. by left. }
      apply Hsame'. destruct Hcase as [?|Hout]; [by left|right].
      intros Hin. apply Hout. by right.
    + intros Hfresh Hin. destruct (decide (k = name)) as [->|Hne].
      * pose proof (Hready1 Hfresh eq_refl) as Hr1.
        rewrite (Hsame' (or_introl (eq_ind_r (λ s, s ≠ MirrorFresh) Ready_not_Fresh Hr1))).
        exact Hr1.
      * assert (mi1 = mi) as -> by (apply Hsame1; by right).
        apply Hready'; [done|]. by apply elem_of_cons in Hin as [?|?].
Qed.

(** X12: the first loop of [Run], when it returns, has removed or added no
    mirror and changed no url; it has left alone every mirror that was not
    [Fresh] and every mirror it did not visit, and every [Fresh] mirror it
    visited is [Ready].  It starts no sender and leaves the interval and the
    paths as they were. *)
Theorem catchUp_effect (visits : list (string * CatchEnv)) (W W' : World) :
  catchUp W visits = Return W' →
  messages (mirrorer W') = messages (mirrorer W) ∧
  dbPath (mirrorer W') = dbPath (mirrorer W) ∧
  State_StoragePath (state (mirrorer W')) = State_StoragePath (state (mirrorer W)) ∧
  State_UpdateDelta (state (mirrorer W')) = State_UpdateDelta (state (mirrorer W)) ∧
  (∀ k, default ∅ (registry W) !! k = None → default ∅ (registry W') !! k = None) ∧
  ∀ k mi, default ∅ (registry W) !! k = Some mi →
    ∃ mi', default ∅ (registry W') !! k = Some mi' ∧
           Mirror_Url mi' = Mirror_Url mi ∧
           (Mirror_State mi ≠ MirrorFresh ∨ k ∉ visits.*1 → mi' = mi) ∧
           (Mirror_State mi = MirrorFresh → k ∈ visits.*1 →
            Mirror_State mi' = MirrorReady).
Proof. apply catchUp_keeps. Qed.

Lemma catchUp_saved_after_write visits : ∀ W W',
  catchUp W visits = Return W' →
  saved_after_write (trace W) → saved_after_write (trace W').
Proof.
  induction visits as [|[name env] visits IH]; intros W W'; cbn [catchUp].
  - by intros [= <-].
  - destruct (catchUpOne W (name, env)) as [W1|msg] eqn:H1; cbn [bindR]; [|discriminate].
    intros H2 Hsaved. apply (IH _ _ H2).
    apply catchUpOne_effect in H1 as [[-> _]|(mm & mirror & _ & _ & _ & _ & _ & _ & ->)];
      [done|].
    apply saved_after_write_app; [done|].
    apply saved_after_write_app; [apply gitCloneMirror_events|]. cbn. eauto.
Qed.

(** X13: through the whole of [Run] and the requests served beside it,
    every write of the registry is followed by a save by the task that
    wrote, before that task does anything else (the steps of the two tasks
    are not interleaved here): no change of the registry is left without an
    attempt to store it. *)
Theorem writes_are_saved (visits : list (string * CatchEnv)) (order : list string)
    (W W1 W' : World) :
  saved_after_write (trace W) →
  Run_start visits order W = Return W1 →
  later_in_run W1 W' →
  saved_after_write (trace W1) ∧ saved_after_write (trace W').
Proof.
  intros Hsaved Hstart Hrun. unfold Run_start in Hstart.
  destruct (catchUp W visits) as [W2|msg] eqn:Hcatch; cbn [bindR] in Hstart;
    [|discriminate].
  injection Hstart as <-.
  assert (saved_after_write (trace (armAll W2 order))) as Harmed.
  { destruct (armAll_effect order W2) as (_ & _ & _ & _ & _ & ->).
    apply saved_after_write_app; [by eapply catchUp_saved_after_write|].
    induction (omap (armed W2) order) as [|t l IHl]; [done|]. exact IHl. }
  split; [done|]. by eapply run_saved_after_write.
Qed.

(** X14: when [Run] reaches its event loop after it has visited every name
    in both of its loops, every mirror of the registry is [Ready] and has
    one sender, whatever the clones have returned, and there is no other
    sender. *)
Theorem Run_start_schedules_all (visits : list (string * CatchEnv))
    (order : list string) (W W1 : World) :
  messages (mirrorer W) = [] →
  (∀ k mi, default ∅ (registry W) !! k = Some mi →
           mirror_valid mi ∧ k ∈ visits.*1 ∧ k ∈ order) →
  NoDup order →
  Run_start visits order W = Return W1 →
  NoDup (senders W1) ∧
  ∀ k, (is_Some (default ∅ (registry W) !! k) →
        ∃ mi', default ∅ (registry W1) !! k = Some mi' ∧
               Mirror_State mi' = MirrorReady ∧ k ∈ senders W1) ∧
       (k ∈ senders W1 → is_Some (default ∅ (registry W) !! k)).
Proof.
  intros Hempty Hall Hnd Hstart. unfold Run_start in Hstart.
  destruct (catchUp W visits) as [W2|msg] eqn:Hcatch; cbn [bindR] in Hstart;
    [|discriminate].
  injection Hstart as <-.
  destruct (catchUp_keeps _ _ _ Hcatch) as (Hm & _ & _ & _ & Hnone & Hsome).
  destruct (armAll_effect order W2) as (Hs & _ & _ & _ & Hmsgs & _).
  rewrite Hm, Hempty, app_nil_l in Hmsgs.
  assert (registry (armAll W2 order) = registry W2) as Hreg
    by (unfold registry; by rewrite Hs).
  split.
  { apply armAll_sched_inv; [|done|].
    - unfold sched_inv, senders. rewrite Hm, Hempty. split; constructor.
    - intros n _. unfold senders. rewrite Hm, Hempty. apply not_elem_of_nil. }
  intros k. rewrite Hreg. unfold senders. rewrite Hmsgs. split.
  - intros [mi Hk]. destruct (Hall k mi Hk) as (Hvalid & Hvisited & Hordered).
    destruct (Hsome k mi Hk) as (mi' & Hk' & _ & Hsame & Hready).
    assert (Mirror_State mi' = MirrorReady) as Hr.
    { destruct Hvalid as [Hf|Hr]; [by apply Hready|].
      rewrite Hsame; [done|]. left. rewrite Hr. apply Ready_not_Fresh. }
    exists mi'. split; [done|]. split; [done|].
    apply list_elem_of_fmap. eexists (k, _). split; [done|].
    apply elem_of_armed. eauto.
  - intros ([n d] & -> & (_ & mi2 & Hk2 & _)%elem_of_armed)%list_elem_of_fmap.
    cbn [fst] in *. destruct (default ∅ (registry W) !! n) eqn:Hk; [by eexists|].
    rewrite (Hnone n Hk) in Hk2. discriminate.
Qed.

(** ** Names and intervals at the edge *)

(** X15: the name of a mirror is not checked.  A request with an empty name
    is registered like any other, and for a [Fresh] mirror with the empty
    name the first loop of [Run] clears the storage directory itself, the
    directory of all the mirrors, before it clones into it. *)
Theorem empty_name_clears_storage (env : HandlerEnv) (q : Values) (W : World)
    (mm : gmap string Mirror) :
  Values_Has q "name" = true →
  Values_Get q "name" = "" →
  Values_Has q "url" = true →
  registry W = Some mm →
  mm !! "" = None →
  (∃ resp W' mi,
     AddMirrorHandler env q W = Return (resp, W') ∧
     default ∅ (registry W') !! "" = Some mi ∧
     Mirror_State mi = MirrorFresh) ∧
  (∀ cenv W1 W2 mi,
     default ∅ (registry W1) !! "" = Some mi →
     Mirror_State mi = MirrorFresh →
     catchUpOne W1 ("", cenv) = Return W2 →
     ∃ evs, trace W2 =
            (trace W1 ++ EvRemoveAll (State_StoragePath (state (mirrorer W1))) :: evs)%list).
Proof.
  intros Hn Hempty Hu Hmm Hfresh. split.
  - unfold AddMirrorHandler. rewrite (checkArgs_present _ _ Hn Hu). cbn [negb].
    rewrite Hempty. unfold registry in *.
    assert (map_has (State_Mirrors (state (mirrorer W))) "" = false) as ->
      by (apply map_has_false; by rewrite Hmm).
    rewrite Hmm. cbn [map_store bindR].
    destruct (updateDb _ _ _) as [[e|] fs']; eexists _, _, _;
      (split; [reflexivity|]);
      cbn [mirrorer with_state state set_mirrors State_Mirrors from_option id];
      by rewrite lookup_insert_eq.
  - intros cenv W1 W2 mi Hlook Hstate Hcatch.
    apply catchUpOne_effect in Hcatch
      as [[_ Hnot]|(mm1 & mirror & _ & _ & _ & _ & _ & _ & ->)];
      [by destruct (Hnot mi Hlook)|].
    assert (filepath_Join (State_StoragePath (state (mirrorer W1))) ""
            = State_StoragePath (state (mirrorer W1))) as Hdir.
    { unfold filepath_Join.
      destruct (decide (State_StoragePath (state (mirrorer W1)) = "")) as [->|]; done. }
    unfold gitCloneMirror. rewrite Hdir.
    destruct (clone_removeAll (catch_clone cenv)); [by eexists|].
    destruct (clone_output (catch_clone cenv)) as [[? ?|?]|]; by eexists.
Qed.

(** X16: with an interval that is not positive, a refresh that succeeds
    leaves a sender that is due at once: the next receive gets the same
    name without any wait, so that the loop refreshes the mirror again and
    again. *)
Theorem nonpositive_interval_spins (env : LoopEnv) (W W1 : World) (name : string) :
  State_UpdateDelta (state (mirrorer W)) ≤ 0 →
  receive env W = Some (name, W1) →
  Mirror_State (map_index (registry W) name) = MirrorReady →
  loop_output env = None →
  ∃ W', loopIter env W = Some (Return W') ∧
        ∀ env', loop_wait env' = 0%N →
                loop_pick env' = length (messages (mirrorer W1)) →
                ∃ W2, receive env' W' = Some (name, W2) ∧ clock W2 = clock W'.
Proof.
  intros Hdelta Hrecv Hready Hout.
  destruct (map_index_Ready _ _ Hready) as (mm & Hmm & Hlook).
  pose proof Hrecv as Hrecv'.
  apply receive_inv in Hrecv' as (d & _ & _ & HW1).
  destruct (handleMessage_refreshed env name W1 mm (map_index (registry W) name))
    as (W' & Hhandle & Hclock & Hm); [by subst W1|exact Hlook|done..|].
  exists W'. unfold loopIter. rewrite Hrecv. split; [by rewrite Hhandle|].
  intros env' Hwait Hpick. unfold receive. rewrite Hm, Hpick, Hwait.
  cbn [messages with_messages].
  rewrite lookup_app_r by done. rewrite Nat.sub_diag. cbn [lookup list_lookup].
  assert (state (mirrorer W1) = state (mirrorer W)) as Hst by (by subst W1).
  rewrite Hst, Hclock.
  assert ((0 <? time_Until (clock W1 + Z.of_N (loop_elapsed env) + Z.of_N 0)
                  (clock W1 + Z.of_N (loop_elapsed env)
                   + State_UpdateDelta (state (mirrorer W)))) = false) as ->.
  { unfold time_Until. apply Z.ltb_ge. lia. }
  eexists. split; [reflexivity|]. cbn [clock]. lia.
Qed.

(** ** Panics of the owner task *)

Lemma catchUpOne_panic W name env msg :
  catchUpOne W (name, env) = Panic msg →
  ∃ mirror text,
    default ∅ (registry W) !! name = Some mirror ∧
    Mirror_State mirror = MirrorFresh ∧
    clone_removeAll (catch_clone env) = None ∧
    clone_output (catch_clone env) = Some (OtherError text) ∧
    msg = "interface conversion: error is not *exec.ExitError: " +:+ text.
Proof.
  unfold catchUpOne, registry.
  destruct (State_Mirrors (state (mirrorer W))) as [mm|] eqn:Hmm;
    cbn [from_option id]; [|by rewrite lookup_empty].
  destruct (mm !! name) as [mirror|] eqn:Hlook; [|discriminate].
  destruct (decide (Mirror_State mirror = MirrorFresh)) as [Hfresh|Hnot]; [|discriminate].
  unfold gitCloneMirror.
  destruct (clone_removeAll (catch_clone env)) as [e|] eqn:Hrm.
  { cbn [bindR map_store]. by destruct (updateDb (catch_save env) _ (files W)). }
  destruct (clone_output (catch_clone env)) as [[t s|text]|] eqn:Hout;
    cbn [bindR map_store].
  - by destruct (updateDb (catch_save env) _ (files W)).
  - intros [= <-]. by exists mirror, text.
  - by destruct (updateDb (catch_save env) _ (files W)).
Qed.

Lemma handleMessage_panic env name W msg :
  handleMessage env name W = Panic msg →
  ∃ text,
    Mirror_State (map_index (registry W) name) = MirrorReady ∧
    loop_output env = Some (OtherError text) ∧
    msg = "interface conversion: error is not *exec.ExitError: " +:+ text.
Proof.
  unfold handleMessage. fold (registry W).
  destruct (decide (Mirror_State (map_index (registry W) name) = MirrorReady))
    as [Hready|Hnot]; [|discriminate].
  destruct (map_index_Ready _ _ Hready) as (mm & Hmm & Hlook).
  unfold gitRemoteUpdate.
  destruct (loop_output env) as [[t s|text]|] eqn:Hout; cbn [bindR].
  - discriminate.
  - intros [= <-]. by exists text.
  - rewrite Hmm. cbn [map_store bindR]. by destruct (updateDb _ _ _).
Qed.

(** X17: the owner task never panics on a write of the registry, even when
    the map is nil: when [Run] panics, in its first loop or in its event
    loop, it is on the type assertion on the error of a git command. *)
Theorem Run_panic_is_type_assertion (visits : list (string * CatchEnv))
    (order : list string) (envs : list LoopEnv) (W : World) (msg : string) :
  Run visits order envs W = Some (Panic msg) →
  ∃ text, msg = "interface conversion: error is not *exec.ExitError: " +:+ text.
Proof.
  unfold Run, Run_start.
  assert (∀ visits W, catchUp W visits = Panic msg →
            ∃ text, msg = "interface conversion: error is not *exec.ExitError: " +:+ text)
    as Hcatch.
  { clear. intros visits. induction visits as [|[name env] visits IH]; intros W;
      cbn [catchUp]; [discriminate|].
    destruct (catchUpOne W (name, env)) as [W1|msg1] eqn:H1; cbn [bindR].
    - apply IH.
    - intros [= ->]. apply catchUpOne_panic in H1 as (_ & text & _ & _ & _ & _ & ->).
      by exists text. }
  assert (∀ envs W, eventLoop envs W = Some (Panic msg) →
            ∃ text, msg = "interface conversion: error is not *exec.ExitError: " +:+ text)
    as Hloop.
  { clear. intros envs. induction envs as [|env envs IH]; intros W;
      cbn [eventLoop]; [discriminate|].
    destruct (loopIter env W) as [[W1|msg1]|] eqn:Hiter; [apply IH| |discriminate].
    intros [= ->]. unfold loopIter in Hiter.
    destruct (receive env W) as [[name W1]|]; [|discriminate].
    injection Hiter as Hiter.
    apply handleMessage_panic in Hiter as (text & _ & _ & ->). by exists text. }
  destruct (catchUp W visits) as [W1|msg1] eqn:H1; cbn [bindR].
  - apply Hloop.
  - intros [= ->]. by eapply Hcatch.
Qed.

(** X18: when git cannot be started (the error of the command is not an
    exit status), the first [Fresh] mirror that [Run] visits makes it panic:
    the owner task ends before it has marked the mirror, saved, or started
    any sender. *)
Theorem Run_panics_in_catchUp (name : string) (env : CatchEnv)
    (visits : list (string * CatchEnv)) (order : list string) (envs : list LoopEnv)
    (W : World) (mirror : Mirror) (text : string) :
  default ∅ (registry W) !! name = Some mirror →
  Mirror_State mirror = MirrorFresh →
  clone_removeAll (catch_clone env) = None →
  clone_output (catch_clone env) = Some (OtherError text) →
  Run ((name, env) :: visits) order envs W =
  Some (Panic ("interface conversion: error is not *exec.ExitError: " +:+ text)).
Proof.
  intros Hlook Hfresh Hrm Hout.
  unfold Run, Run_start. cbn [catchUp]. unfold catchUpOne. fold (registry W).
  rewrite Hlook. destruct (decide (Mirror_State mirror = MirrorFresh)); [|done].
  unfold gitCloneMirror. by rewrite Hrm, Hout.
Qed.

(** X19: in the event loop, a refresh for which git cannot be started makes
    [Run] panic, whatever the iterations that would follow: the name has
    been received, and nothing is stamped, saved or scheduled. *)
Theorem eventLoop_panics (env : LoopEnv) (envs : list LoopEnv) (W W1 : World)
    (name text : string) :
  receive env W = Some (name, W1) →
  Mirror_State (map_index (registry W) name) = MirrorReady →
  loop_output env = Some (OtherError text) →
  eventLoop (env :: envs) W =
  Some (Panic ("interface conversion: error is not *exec.ExitError: " +:+ text)).
Proof.
  intros Hrecv Hready Hout. cbn [eventLoop]. unfold loopIter. rewrite Hrecv.
  apply receive_inv in Hrecv as (d & _ & _ & ->).
  unfold handleMessage, registry in *. cbn [mirrorer with_messages state].
  destruct (decide (Mirror_State (map_index (State_Mirrors (state (mirrorer W))) name)
                    = MirrorReady)); [|done].
  unfold gitRemoteUpdate. by rewrite Hout.
Qed.

(** ** Snapshots that cannot be read back *)

Lemma foldM_fails {A B} (f : A → B → option A) (b : B) (l : list B) :
  b ∈ l → (∀ a, f a b = None) → ∀ a, foldM f a l = None.
Proof.
  intros Hin Hb. induction l as [|b' l IH]; intros a; [by apply elem_of_nil in Hin|].
  cbn [foldM]. apply elem_of_cons in Hin as [<-|Hin].
  - by rewrite Hb.
  - destruct (f a b') as [a'|]; [|done]. cbn [mbind option_bind]. by apply IH.
Qed.

Lemma decode_unknown_Mirror (m : Mirror) (j : json) :
  ¬ mirror_valid m → encodeMirror m = Some j → decode_Mirror zeroMirror j = None.
Proof.
  intros Hinvalid. unfold encodeMirror.
  intros (stamp & Hstamp & [= <-])%bind_Some_inv.
  unfold mirror_valid in Hinvalid.
  assert (MirrorState_String (Mirror_State m) = "Unknown") as ->.
  { unfold MirrorState_String.
    destruct (decide (Mirror_State m = MirrorFresh)); [tauto|].
    destruct (decide (Mirror_State m = MirrorReady)); [tauto|done]. }
  unfold decode_Mirror, foldM, decode_Mirror_field. cbn [fst snd].
  eval_fields. cbn [decode_string decode_Time mbind option_bind Mirror_LastUpdate].
  destruct (time_UnmarshalJSON stamp) as [t|]; [|done].
  cbn [mbind option_bind Mirror_Url Mirror_State Mirror_LastUpdate].
  eval_fields. reflexivity.
Qed.

(** X20: a state in which some mirror is neither [Fresh] nor [Ready] (the
    zero state of a mirror read from a snapshot without a [state] field,
    say) can be saved, but the snapshot written cannot be loaded: the state
    is written as "Unknown", which the decoder refuses. *)
Theorem unknown_state_not_loadable (io : SaveIO) (m : Mirrorer) (fs fs' : FS)
    (k : string) (mi : Mirror) :
  updateDb io m fs = (None, fs') →
  default ∅ (State_Mirrors (state m)) !! k = Some mi →
  ¬ mirror_valid mi →
  ∃ err, loadState (dbPath m) fs' = inr err.
Proof.
  intros Hsave Hk Hinvalid.
  destruct (updateDb_success _ _ _ _ Hsave) as (doc & Henc & _ & ->).
  unfold loadState. rewrite lookup_insert_eq. cbn [mbind option_bind].
  assert (decode_State NewState doc = None) as ->; [|by eexists].
  unfold encodeState in Henc.
  apply bind_Some_inv in Henc as (mirrors & Hmirrors & [= <-]).
  destruct (State_Mirrors (state m)) as [mm|]; cbn [from_option id] in Hk;
    [|by rewrite lookup_empty in Hk].
  cbn [encodeMirrors] in Hmirrors.
  destruct (mapM _ _) as [l|] eqn:Hl; [|discriminate]. injection Hmirrors as <-.
  apply mapM_Some in Hl.
  assert ((k, mi) ∈ merge_sort key_le (map_to_list mm)) as Hin.
  { rewrite (merge_sort_Permutation key_le (map_to_list mm)).
    by apply elem_of_map_to_list. }
  apply list_elem_of_lookup_1 in Hin as [i Hi].
  destruct (Forall2_lookup_l _ _ _ _ _ Hl Hi) as ([k' j] & Hj & Hkj).
  apply bind_Some_inv in Hkj as (j' & Hj' & [= <- <-]). cbn [fst snd] in *.
  assert (foldM decode_Mirrors_entry ∅ l = None) as Hfail.
  { apply (foldM_fails _ (k, j')); [by eapply list_elem_of_lookup_2|].
    intros a. unfold decode_Mirrors_entry. cbn [fst snd].
    by rewrite (decode_unknown_Mirror _ _ Hinvalid Hj'). }
  unfold decode_State, foldM, decode_State_field. cbn [fst snd].
  eval_fields.
  cbn [decode_string decode_int64 mbind option_bind NewState
       State_StoragePath State_UpdateDelta State_Mirrors].
  destruct (in_int64 (State_UpdateDelta (state m))); [|done].
  cbn [mbind option_bind State_StoragePath State_UpdateDelta State_Mirrors].
  eval_fields. cbn [decode_Mirrors from_option id]. by rewrite Hfail.
Qed.

(** ** What is on disk after a request and after a start *)

Lemma AddMirrorHandler_ok_inv env q W resp W' :
  AddMirrorHandler env q W = Return (resp, W') →
  status resp = None →
  resp = newResponse ∧
  ∃ mm, registry W = Some mm ∧ mm !! Values_Get q "name" = None ∧
        let mirror := {| Mirror_Url := Values_Get q "url";
                         Mirror_LastUpdate := clock W + Z.of_N (handler_elapsed env);
                         Mirror_State := MirrorFresh |} in
        let m' := with_state (set_mirrors (Some (<[Values_Get q "name" := mirror]> mm))
                                (state (mirrorer W))) (mirrorer W) in
        mirrorer W' = m' ∧
        updateDb (handler_save env) m' (files W) = (None, files W').
Proof.
  unfold AddMirrorHandler.
  destruct (decide (Forall (λ arg, is_Some (q !! arg)) ["name"; "url"])) as [Hall|Hnot].
  2:{ rewrite (checkArgs_refuses _ _ _ Hnot). cbn [negb]. by intros [= <- _]. }
  rewrite (checkArgs_accepts _ _ _ Hall). cbn [negb].
  destruct (map_has _ _) eqn:Hhas; [by intros [= <- _]|].
  apply map_has_false in Hhas. unfold registry.
  destruct (State_Mirrors (state (mirrorer W))) as [mm|] eqn:Hmm;
    cbn [map_store bindR from_option id] in *; [|discriminate].
  destruct (updateDb _ _ _) as [[e|] fs'] eqn:Hsave; [by intros [= <- _]|].
  intros [= <- <-] _. split; [done|]. exists mm. by rewrite Hsave.
Qed.

Section Persisted.

Hypothesis time_roundtrip :
  ∀ t s, time_MarshalJSON t = Some s → time_UnmarshalJSON s = Some t.

Lemma load_saved (s : State) (doc : json) (path : string) (fs : FS) :
  state_valid s → encodeState s = Some doc → fs !! path = Some (Some doc) →
  loadState path fs = inl s.
Proof using time_roundtrip.
  intros Hv Henc Hfile. unfold loadState. rewrite Hfile. cbn [mbind option_bind].
  by rewrite (decode_encode_State time_roundtrip _ _ Hv Henc).
Qed.


(** X22: [NewMirrorer] leaves a snapshot file that gives the same state at
    the next start: when it returns a mirrorer whose interval is an [int64]
    and whose mirrors are [Fresh] or [Ready], a load of the file it leaves
    gives the state of that mirrorer, and [NewMirrorer] on that file returns
    the same mirrorer, whether its own first save has succeeded or not. *)
Theorem NewMirrorer_restart_stable (io io' : SaveIO) (path : string) (fs fs' : FS)
    (m : Mirrorer) :
  NewMirrorer io path fs = (inl m, fs') →
  state_valid (state m) →
  loadState path fs' = inl (state m) ∧
  (NewMirrorer io' path fs').1 = inl m.
Proof using time_roundtrip.
  unfold NewMirrorer.
  destruct (fs_ValidPath path) eqn:Hpath; cbn [negb]; [|discriminate].
  destruct (loadState path fs) as [s|err] eqn:Hload; [|discriminate].
  intros [= <- <-] Hvalid. cbn [state] in *.
  set (m := {| state := s; dbPath := path; messages := [] |}).
  assert (loadState path (updateDb io m fs).2 = inl s) as Hload'.
  { destruct (updateDb io m fs) as [[e|] fs1] eqn:Hsave; cbn [snd].
    - assert (is_Some (fs !! dbPath m)) as Htarget.
      { unfold loadState in Hload. cbn [m dbPath].
        destruct (fs !! path); [by eexists|discriminate]. }
      pose proof (updateDb_upto_target io m fs 4 (Some e) fs1 Htarget) as Hsame.
      rewrite updateDb_upto_all in Hsame by lia.
      unfold loadState in *. cbn [m dbPath] in Hsame.
      rewrite Hsame; [done..|]. right. by eexists.
    - destruct (updateDb_success _ _ _ _ Hsave) as (doc & Henc & _ & ->).
      apply (load_saved _ doc); [done..|]. cbn [m dbPath]. by rewrite lookup_insert_eq. }
  split; [done|]. by rewrite Hload'.
Qed.


End Persisted.

End Looter.

(** * The properties on the sample worlds *)

Lemma stamp_roundtrip (t : Time) (s : string) :
  stamp_text t = Some s → stamp_parse s = Some t.
Proof.
  intros [= <-]. unfold stamp_parse. rewrite NilEmpty.isi. simpl.
  by rewrite DecimalZ.of_to.
Qed.

Lemma sample_state_valid : state_valid sample_state.
Proof.
  split; [reflexivity|]. intros k m.
  change (default ∅ (State_Mirrors sample_state))
    with (<["repo2" := repo2]> ({["repo1" := repo1]} : gmap string Mirror)).
  intros [[_ <-]|[_ H]]%lookup_insert_Some; [by right|].
  apply lookup_singleton_Some in H as [_ <-]. by left.
Qed.

Lemma MirrorState_text_roundtrip_witness :
  MirrorState_UnmarshalText 0 (MirrorState_MarshalText MirrorReady).1
    = (MirrorReady, None) ∧
  ∃ err, MirrorState_UnmarshalText MirrorFresh "Unknown" = (MirrorFresh, Some err).
Proof.
  destruct MirrorState_text_roundtrip as [Hvalid Hinvalid]. split.
  - apply (Hvalid MirrorReady 0). right. reflexivity.
  - apply (Hinvalid "Unknown" MirrorFresh); discriminate.
Defined.



Lemma updateDb_atomic_witness :
  is_Some (sample_files !! "db.json") ∧
  loadState stamp_parse "db.json"
    (updateDb_upto stamp_text 3 quiet_save sample_mirrorer sample_files).2
  = loadState stamp_parse "db.json" sample_files.
Proof.
  assert (is_Some (sample_files !! "db.json")) as Htarget
    by (eexists; vm_compute; reflexivity).
  split; [exact Htarget|].
  pose proof (updateDb_atomic stamp_text stamp_parse quiet_save sample_mirrorer
                sample_files Htarget) as Hsave.
  cbv zeta in Hsave. destruct Hsave as (_ & _ & _ & Hcut).
  edestruct (Hcut 3%nat) as [_ Hload]; [vm_compute; reflexivity|left; lia|].
  exact Hload.
Defined.



Lemma handleMessage_not_Ready_witness :
  handleMessage stamp_text failing_update "ghost" sample_world = Return sample_world ∧
  handleMessage stamp_text failing_update "repo1" sample_world = Return sample_world.
Proof.
  split.
  - apply (handleMessage_not_Ready stamp_text failing_update "ghost" sample_world).
    left. vm_compute. reflexivity.
  - apply (handleMessage_not_Ready stamp_text failing_update "repo1" sample_world).
    right. vm_compute. discriminate.
Defined.

(** C1 on the code: a clone that returns an error does not leave the mirror
    [Fresh].  The first loop of [Run] logs the error and goes on: the mirror
    is [Ready] afterwards, stamped with the instant the clone ended, and the
    state has been saved. *)
Theorem failed_clone_marks_Ready :
  (∃ err, (gitCloneMirror (catch_clone failing_clone) "mirrors" "repo1"
             (Mirror_Url repo1)).2 = Return (Some err)) ∧
  Mirror_State (map_index (registry sample_world) "repo1") = MirrorFresh ∧
  ∃ W', catchUp stamp_text sample_world [("repo1", failing_clone)] = Return W' ∧
        default ∅ (registry W') !! "repo1" =
          Some {| Mirror_Url := "https://example.com/repo1.git";
                  Mirror_LastUpdate := 1007;
                  Mirror_State := MirrorReady |} ∧
        trace W' = [EvRemoveAll "mirrors/repo1";
                    EvGitClone "https://example.com/repo1.git" "mirrors/repo1";
                    EvMapWrite OwnerTask "repo1"
                      {| Mirror_Url := "https://example.com/repo1.git";
                         Mirror_LastUpdate := 1007;
                         Mirror_State := MirrorReady |};
                    EvUpdateDb OwnerTask].
Proof.
  split; [eexists; vm_compute; reflexivity|]. split; [reflexivity|].
  eexists. split; [vm_compute; reflexivity|]. split; vm_compute; reflexivity.
Qed.

Lemma failed_refresh_drops_mirror_witness :
  ∃ W', loopIter stamp_text failing_update (armAll due_world ["repo1"; "repo2"])
          = Some (Return W') ∧
        state (mirrorer W') = sample_state ∧
        files W' = sample_files ∧
        "repo2" ∉ senders W'.
Proof.
  edestruct (failed_refresh_drops_mirror stamp_text failing_update
               (armAll due_world ["repo1"; "repo2"]))
    as (W' & Hloop & Hstate & Hfiles & _ & Hgone & _).
  - vm_compute. apply NoDup_singleton.
  - vm_compute. reflexivity.
  - vm_compute. reflexivity.
  - vm_compute. reflexivity.
  - exists W'. split; [exact Hloop|]. split; [exact Hstate|].
    split; [exact Hfiles|exact Hgone].
Defined.



(** C7 as stated fails for add-mirror: the handler stores the new mirror in
    the registry map itself and saves; it sends nothing to the owner task. *)
Lemma handler_writes_registry :
  ∃ resp W',
    AddMirrorHandler stamp_text quiet_request add_repo3 sample_world
      = Return (resp, W') ∧
    default ∅ (registry sample_world) !! "repo3" = None ∧
    is_Some (default ∅ (registry W') !! "repo3") ∧
    messages (mirrorer W') = messages (mirrorer sample_world) ∧
    trace W' = [EvMapWrite HandlerTask "repo3"
                  {| Mirror_Url := "https://example.com/repo3.git";
                     Mirror_LastUpdate := 1001;
                     Mirror_State := MirrorFresh |};
                EvUpdateDb HandlerTask] ∧
    ¬ Forall owner_writes (trace W').
Proof.
  eexists _, _. split; [vm_compute; reflexivity|].
  split; [vm_compute; reflexivity|].
  split; [eexists; vm_compute; reflexivity|].
  split; [reflexivity|]. split; [vm_compute; reflexivity|].
  intros Hall. apply Forall_cons in Hall as [Hhead _]. discriminate Hhead.
Qed.

(** * Further properties on the sample worlds *)

Lemma AddMirrorHandler_missing_args_witness :
  ∃ resp,
    AddMirrorHandler stamp_text quiet_request add_no_url sample_world
      = Return (resp, sample_world) ∧
    status resp = Some 500 ∧
    body resp = "missing arguments: url" +:+ nl.
Proof.
  destruct (AddMirrorHandler_missing_args stamp_text quiet_request add_no_url sample_world)
    as (resp & Hret & Hstatus & Hbody).
  - right. vm_compute. reflexivity.
  - exists resp. split; [exact Hret|]. split; [exact Hstatus|].
    rewrite Hbody. vm_compute. reflexivity.
Defined.

Lemma AddMirrorHandler_save_failed_witness :
  ∃ resp W',
    AddMirrorHandler stamp_text failing_request add_repo3 sample_world
      = Return (resp, W') ∧
    status resp = Some 500 ∧
    is_Some (default ∅ (registry W') !! "repo3") ∧
    loadState stamp_parse (dbPath (mirrorer W')) (files W')
      = loadState stamp_parse "db.json" sample_files.
Proof.
  destruct (AddMirrorHandler_save_failed stamp_text stamp_parse failing_request add_repo3
              sample_world (<["repo2" := repo2]> {["repo1" := repo1]}))
    as (resp & W' & e & Hret & Hstatus & _ & Hreg & _ & Hload).
  - reflexivity.
  - reflexivity.
  - reflexivity.
  - vm_compute. reflexivity.
  - right. right. right. eexists. reflexivity.
  - eexists. vm_compute. reflexivity.
  - exists resp, W'. split; [exact Hret|]. split; [exact Hstatus|].
    split; [|exact Hload]. rewrite Hreg. cbn [from_option id].
    rewrite lookup_insert_eq. by eexists.
Defined.

Lemma updateDb_frame_witness :
  ∃ e fs',
    updateDb stamp_text failing_save sample_mirrorer sample_files = (Some e, fs') ∧
    is_Some (fs' !! "./looter.42.tmp") ∧
    fs' !! "other.json" = sample_files !! "other.json".
Proof.
  eexists _, _. split; [vm_compute; reflexivity|].
  pose proof (updateDb_frame stamp_text failing_save sample_mirrorer sample_files) as Hframe.
  edestruct Hframe as (Hother & _ & Hleak); [vm_compute; reflexivity|].
  split.
  - apply Hleak; [by eexists|reflexivity|vm_compute; reflexivity].
  - apply Hother; discriminate.
Defined.



Lemma run_never_clones_witness :
  ∃ resp W' evs,
    AddMirrorHandler stamp_text quiet_request add_repo3 armed_world = Return (resp, W') ∧
    trace W' = (trace armed_world ++ evs)%list ∧
    Forall (λ ev, ¬ clone_event ev) evs.
Proof.
  assert (∃ resp W', AddMirrorHandler stamp_text quiet_request add_repo3 armed_world
                     = Return (resp, W'))
    as (resp & W' & Hadd) by (eexists _, _; vm_compute; reflexivity).
  destruct (run_never_clones stamp_text armed_world W') as (evs & Htrace & Hevs).
  { eapply rtc_l; [|apply rtc_refl]. by eapply step_add. }
  exists resp, W', evs. split; [exact Hadd|]. split; [exact Htrace|exact Hevs].
Defined.

Lemma schedule_invariant_witness :
  ∃ W',
    loopIter stamp_text (good_update 0) armed_world = Some (Return W') ∧
    NoDup (senders W').
Proof.
  assert (∃ W', loopIter stamp_text (good_update 0) armed_world = Some (Return W'))
    as [W' Hloop] by (eexists; vm_compute; reflexivity).
  destruct (schedule_invariant stamp_text due_world W' ["repo1"; "repo2"]) as [Hnd _].
  - reflexivity.
  - apply NoDup_cons. split; [|apply NoDup_singleton].
    intros Hin%list_elem_of_singleton. discriminate.
  - eapply rtc_l; [|apply rtc_refl]. by eapply step_loop.
  - exists W'. split; [exact Hloop|exact Hnd].
Defined.

Lemma catchUp_effect_witness :
  ∃ W' mi',
    catchUp stamp_text sample_world [("repo1", failing_clone)] = Return W' ∧
    default ∅ (registry W') !! "repo2" = Some repo2 ∧
    default ∅ (registry W') !! "repo1" = Some mi' ∧
    Mirror_State mi' = MirrorReady.
Proof.
  assert (∃ W', catchUp stamp_text sample_world [("repo1", failing_clone)] = Return W')
    as [W' Hcatch] by (eexists; vm_compute; reflexivity).
  destruct (catchUp_effect stamp_text _ _ _ Hcatch) as (_ & _ & _ & _ & _ & Hreg).
  destruct (Hreg "repo2" repo2) as (mi2 & Hlook2 & _ & Hsame2 & _);
    [vm_compute; reflexivity|].
  destruct (Hreg "repo1" repo1) as (mi1 & Hlook1 & _ & _ & Hready1);
    [vm_compute; reflexivity|].
  exists W', mi1. split; [exact Hcatch|]. split; [|split; [exact Hlook1|]].
  - rewrite Hlook2. f_equal. apply Hsame2. left. discriminate.
  - apply Hready1; [reflexivity|]. apply list_elem_of_singleton. reflexivity.
Defined.

Lemma writes_are_saved_witness :
  ∃ W1 resp W',
    Run_start stamp_text [("repo1", good_clone)] ["repo1"; "repo2"] sample_world
      = Return W1 ∧
    AddMirrorHandler stamp_text quiet_request add_repo3 W1 = Return (resp, W') ∧
    saved_after_write (trace W').
Proof.
  assert (∃ W1, Run_start stamp_text [("repo1", good_clone)] ["repo1"; "repo2"]
                  sample_world = Return W1)
    as [W1 Hstart] by (eexists; vm_compute; reflexivity).
  assert (∃ resp W', AddMirrorHandler stamp_text quiet_request add_repo3 W1
                     = Return (resp, W')) as (resp & W' & Hadd).
  { vm_compute in Hstart. injection Hstart as <-. eexists _, _. vm_compute. reflexivity. }
  destruct (writes_are_saved stamp_text _ _ sample_world W1 W' I Hstart) as [_ Hsaved].
  { eapply rtc_l; [|apply rtc_refl]. by eapply step_add. }
  exists W1, resp, W'. split; [exact Hstart|]. split; [exact Hadd|exact Hsaved].
Defined.

Lemma Run_start_schedules_all_witness :
  ∃ W1,
    Run_start stamp_text [("repo1", failing_clone); ("repo2", failing_clone)]
      ["repo1"; "repo2"] sample_world = Return W1 ∧
    Mirror_State (map_index (registry sample_world) "repo1") = MirrorFresh ∧
    ∃ mi', default ∅ (registry W1) !! "repo1" = Some mi' ∧
           Mirror_State mi' = MirrorReady ∧ "repo1" ∈ senders W1.
Proof.
  assert (∃ W1, Run_start stamp_text [("repo1", failing_clone); ("repo2", failing_clone)]
                  ["repo1"; "repo2"] sample_world = Return W1)
    as [W1 Hstart] by (eexists; vm_compute; reflexivity).
  destruct (Run_start_schedules_all stamp_text
              [("repo1", failing_clone); ("repo2", failing_clone)] ["repo1"; "repo2"]
              sample_world W1) as [_ Hall]; [| | |exact Hstart|].
  - reflexivity.
  - intros k mi.
    change (default ∅ (registry sample_world))
      with (<["repo2" := repo2]> ({["repo1" := repo1]} : gmap string Mirror)).
    intros [[<- <-]|[_ H]]%lookup_insert_Some.
    + split; [by right|]. split; [by right; left|by right; left].
    + apply lookup_singleton_Some in H as [<- <-].
      split; [by left|]. split; by left.
  - apply NoDup_cons. split; [|apply NoDup_singleton].
    intros Hin%list_elem_of_singleton. discriminate.
  - exists W1. split; [exact Hstart|]. split; [reflexivity|].
    apply (proj1 (Hall "repo1")). eexists. vm_compute. reflexivity.
Defined.

Lemma Run_panic_is_type_assertion_witness :
  ∃ msg text,
    Run stamp_text [("repo1", clone_without_git)] ["repo1"; "repo2"] [] sample_world
      = Some (Panic msg) ∧
    msg = "interface conversion: error is not *exec.ExitError: " +:+ text.
Proof.
  assert (∃ msg, Run stamp_text [("repo1", clone_without_git)] ["repo1"; "repo2"] []
                   sample_world = Some (Panic msg))
    as [msg Hrun] by (eexists; vm_compute; reflexivity).
  destruct (Run_panic_is_type_assertion stamp_text _ _ _ _ _ Hrun) as [text Htext].
  exists msg, text. split; [exact Hrun|exact Htext].
Defined.

Lemma Run_panics_in_catchUp_witness :
  Run stamp_text [("repo1", clone_without_git)] ["repo1"; "repo2"] [good_update 0]
    sample_world
  = Some (Panic ("interface conversion: error is not *exec.ExitError: " +:+
                 "exec: git: executable file not found in $PATH")).
Proof.
  apply (Run_panics_in_catchUp stamp_text "repo1" clone_without_git [] ["repo1"; "repo2"]
           [good_update 0] sample_world repo1).
  - vm_compute. reflexivity.
  - reflexivity.
  - reflexivity.
  - reflexivity.
Defined.

Lemma eventLoop_panics_witness :
  eventLoop stamp_text [update_without_git; good_update 0] armed_world
  = Some (Panic ("interface conversion: error is not *exec.ExitError: " +:+
                 "exec: git: executable file not found in $PATH")).
Proof.
  eapply (eventLoop_panics stamp_text update_without_git [good_update 0] armed_world _
            "repo2").
  - vm_compute. reflexivity.
  - vm_compute. reflexivity.
  - reflexivity.
Defined.

Lemma unknown_state_not_loadable_witness :
  loadState stamp_parse "db.json" stateless_files = inl stateless_state ∧
  ∃ fs' err,
    updateDb stamp_text quiet_save
      {| state := stateless_state; dbPath := "db.json"; messages := [] |}
      stateless_files = (None, fs') ∧
    loadState stamp_parse "db.json" fs' = inr err.
Proof.
  split; [vm_compute; reflexivity|].
  assert (∃ fs', updateDb stamp_text quiet_save
                   {| state := stateless_state; dbPath := "db.json"; messages := [] |}
                   stateless_files = (None, fs'))
    as [fs' Hsave] by (eexists; vm_compute; reflexivity).
  destruct (unknown_state_not_loadable stamp_text stamp_parse _ _ _ _ "repo4"
              {| Mirror_Url := "https://example.com/repo4.git";
                 Mirror_LastUpdate := 0; Mirror_State := 0 |} Hsave)
    as [err Hload].
  - vm_compute. reflexivity.
  - intros [H|H]; discriminate H.
  - exists fs', err. split; [exact Hsave|exact Hload].
Defined.


Lemma NewMirrorer_restart_stable_witness :
  ∃ fs',
    NewMirrorer stamp_text stamp_parse failing_save "db.json" bare_files
      = (inl {| state := bare_state; dbPath := "db.json"; messages := [] |}, fs') ∧
    loadState stamp_parse "db.json" fs' = inl bare_state.
Proof.
  assert (∃ fs', NewMirrorer stamp_text stamp_parse failing_save "db.json" bare_files
                 = (inl {| state := bare_state; dbPath := "db.json"; messages := [] |},
                    fs'))
    as [fs' Hnew] by (eexists; vm_compute; reflexivity).
  destruct (NewMirrorer_restart_stable stamp_text stamp_parse stamp_roundtrip
              failing_save quiet_save "db.json" bare_files fs' _ Hnew) as [Hload _].
  - split; [reflexivity|]. intros k m Hk. cbn in Hk.
    rewrite lookup_empty in Hk. discriminate Hk.
  - exists fs'. split; [exact Hnew|exact Hload].
Defined.


Lemma empty_name_clears_storage_witness :
  ∃ resp W' mi,
    AddMirrorHandler stamp_text quiet_request add_empty_name sample_world
      = Return (resp, W') ∧
    default ∅ (registry W') !! "" = Some mi ∧
    Mirror_State mi = MirrorFresh.
Proof.
  apply (empty_name_clears_storage stamp_text quiet_request add_empty_name sample_world
           (<["repo2" := repo2]> {["repo1" := repo1]})).
  - reflexivity.
  - reflexivity.
  - reflexivity.
  - reflexivity.
  - vm_compute. reflexivity.
Defined.

Lemma nonpositive_interval_spins_witness :
  ∃ W' W2,
    loopIter stamp_text (good_update 90) (armAll backward_world ["repo2"])
      = Some (Return W') ∧
    receive (good_update 0) W' = Some ("repo2", W2) ∧
    clock W2 = clock W'.
Proof.
  assert (∃ W1, receive (good_update 90) (armAll backward_world ["repo2"])
                = Some ("repo2", W1))
    as [W1 Hrecv] by (eexists; vm_compute; reflexivity).
  destruct (nonpositive_interval_spins stamp_text (good_update 90)
              (armAll backward_world ["repo2"]) W1 "repo2")
    as (W' & Hloop & Hnext).
  - vm_compute. discriminate.
  - exact Hrecv.
  - vm_compute. reflexivity.
  - reflexivity.
  - destruct (Hnext (good_update 0)) as (W2 & Hrecv2 & Hclock).
    + reflexivity.
    + vm_compute in Hrecv. injection Hrecv as <-. reflexivity.
    + exists W', W2. split; [exact Hloop|]. split; [exact Hrecv2|exact Hclock].
Defined.
